(** * AQ: the GTP connector (src/gtp.h)

    A shallow embedding of [GTPConnector]: the command parser
    [ParseCommand], the dispatcher [ExecuteCommand] with its response
    framing, and one iteration of the session loop [Start].

    Conventions.
    - [std::string] is [string]; [std::vector<std::string>] is [list string].
    - [int] is [Z]; the only place where its range matters is [std::stoi],
      which throws [std::out_of_range] outside of it.
    - [double] is the kernel's binary64 [float].
    - Writes to [stdout], [stderr] and the log file are recorded, in order,
      in a trace of events; an uncaught exception or an access past the end
      of a vector ends the run with an [Abort].
    - Code of the repository that is declared but not defined in gtp.h
      (the board, the search tree, the option table, the [On...Command]
      handlers) is taken through the interface [Collaborators]. *)

From Stdlib Require Import String Ascii List ZArith Lia Bool PrimFloat DecimalString DecimalPos.
Import ListNotations.

Local Open Scope string_scope.
Local Open Scope Z_scope.

(* ================================================================== *)
(** * Characters and strings as the C++ library treats them           *)
(* ================================================================== *)

Module Cxx.

(** The line feed character and the NUL character. *)
Definition LF : string := String (ascii_of_nat 10) EmptyString.
Definition NUL : ascii := ascii_of_nat 0.

(** [isspace] in the "C" locale: space, and \t \n \v \f \r. *)
Definition isspace (c : ascii) : bool :=
  let n := nat_of_ascii c in
  Nat.eqb n 32 || (Nat.leb 9 n && Nat.leb n 13).

(** [isdigit]: '0' .. '9'. *)
Definition isdigit (c : ascii) : bool :=
  let n := nat_of_ascii c in
  Nat.leb 48 n && Nat.leb n 57.

(** [std::all_of(s.cbegin(), s.cend(), p)]. *)
Fixpoint all_of (p : ascii -> bool) (s : string) : bool :=
  match s with
  | EmptyString => true
  | String c r => p c && all_of p r
  end.

(** [s.substr(pos)]: the suffix from [pos] (used with [pos <= s.size()]). *)
Definition substr_from (pos : nat) (s : string) : string :=
  substring pos (String.length s - pos) s.

(** [str.find(s) != std::string::npos]. *)
Fixpoint contains (str s : string) : bool :=
  if prefix s str then true
  else match str with
       | EmptyString => false
       | String _ r => contains r s
       end.

(** [s.c_str()] read by a [%s] conversion: the characters before the first NUL. *)
Fixpoint c_str (s : string) : string :=
  match s with
  | EmptyString => EmptyString
  | String c r => if Ascii.eqb c NUL then EmptyString else String c (c_str r)
  end.

(** The words that successive [iss >> s] extractions yield from a stream
    holding [s]: the maximal runs of non-space characters, in order.
    [cur] is the word being read. *)
Fixpoint words (cur : string) (s : string) : list string :=
  match s with
  | EmptyString => if String.eqb cur EmptyString then [] else [cur]
  | String c r =>
      if isspace c
      then (if String.eqb cur EmptyString then words EmptyString r
            else cur :: words EmptyString r)
      else words (cur ++ String c EmptyString) r
  end.

Definition tokens (s : string) : list string := words EmptyString s.

(** Exceptions of <stdexcept> thrown by the string conversions. *)
Inductive exception : Set := invalid_argument | out_of_range.

Inductive result (A : Type) : Type :=
| Ok (a : A)
| Throw (e : exception).
Arguments Ok {A} a.
Arguments Throw {A} e.

Definition INT_MAX : Z := 2147483647.
Definition INT_MIN : Z := -2147483648.

Definition digit_value (c : ascii) : Z := Z.of_nat (nat_of_ascii c) - 48.

(** The longest prefix of decimal digits of [s], accumulated into [acc];
    the boolean tells whether at least one digit was read. *)
Fixpoint read_digits (acc : Z) (seen : bool) (s : string) : Z * bool :=
  match s with
  | String c r =>
      if isdigit c then read_digits (10 * acc + digit_value c) true r
      else (acc, seen)
  | EmptyString => (acc, seen)
  end.

Fixpoint skipws (s : string) : string :=
  match s with
  | String c r => if isspace c then skipws r else s
  | EmptyString => EmptyString
  end.

(** [std::stoi(str)] (base 10, no position out-parameter): leading white
    space, an optional sign, then digits; [invalid_argument] when no digit
    can be read, [out_of_range] when the value does not fit an [int];
    anything after the digits is ignored. *)
Definition stoi (str : string) : result Z :=
  let s := skipws str in
  let '(neg, body) :=
    match s with
    | String c r =>
        if Ascii.eqb c "-" then (true, r)
        else if Ascii.eqb c "+" then (false, r)
        else (false, s)
    | EmptyString => (false, s)
    end in
  let '(v, seen) := read_digits 0 false body in
  if negb seen then Throw invalid_argument
  else
    let v := if neg then - v else v in
    if (INT_MIN <=? v) && (v <=? INT_MAX) then Ok v else Throw out_of_range.

(** [std::to_string(int)]. *)
Definition to_string (n : Z) : string := NilEmpty.string_of_int (Z.to_int n).

End Cxx.
Import Cxx.

(* ================================================================== *)
(** * The command parser                                              *)
(* ================================================================== *)

(** The three variables [ParseCommand] assigns: its return value [type]
    and the out-parameters [*command_id] and [*args]. *)
Record Parsed : Type := mkParsed
  { p_type : string;
    p_id : Z;
    p_args : list string }.

(** Lines 256-258: [*command_id = -1; args->clear(); type = ""]. *)
Definition Parsed_init : Parsed :=
  {| p_type := EmptyString; p_id := -1; p_args := [] |}.

(** Line 265: [if (s.substr(0, 1) == "=") s = s.substr(1);]. *)
Definition strip_eq (s : string) : string :=
  if String.eqb (substring 0 1 s) "=" then substr_from 1 s else s.

(** The body of the [while (iss >> s)] loop, lines 264-275. *)
Definition ParseCommand_body (st : Parsed) (s : string) : result Parsed :=
  if String.eqb (p_type st) EmptyString then
    let s := strip_eq s in
    if String.eqb s EmptyString then Ok st
    else if all_of isdigit s then
      match stoi s with
      | Ok n => Ok {| p_type := p_type st; p_id := n; p_args := p_args st |}
      | Throw e => Throw e
      end
    else Ok {| p_type := s; p_id := p_id st; p_args := p_args st |}
  else Ok {| p_type := p_type st; p_id := p_id st; p_args := (p_args st ++ [s])%list |}.

Fixpoint ParseCommand_loop (toks : list string) (st : Parsed) : result Parsed :=
  match toks with
  | [] => Ok st
  | s :: rest =>
      match ParseCommand_body st s with
      | Ok st' => ParseCommand_loop rest st'
      | Throw e => Throw e
      end
  end.

(** [ParseCommand(command, &command_id, &args)]. *)
Definition ParseCommand (command : string) : result Parsed :=
  ParseCommand_loop (tokens command) Parsed_init.

(** The Command Frame of the data model: the id is optional.  The code
    keeps it in an [int] where a negative value means absent (line 231). *)
Definition Frame : Type := (option Z * string * list string)%type.

Definition frame_of (p : Parsed) : Frame :=
  (if 0 <=? p_id p then Some (p_id p) else None, p_type p, p_args p).

(** The parser as section 4.4 of the specification words it: only the first
    token may carry the id, and the token after an id is the name. *)
Definition spec_ParseCommand (line : string) : Frame :=
  match tokens line with
  | [] => (None, EmptyString, [])
  | t :: rest =>
      let s := match t with
               | String c r => if Ascii.eqb c "=" then r else t
               | EmptyString => t
               end in
      if negb (String.eqb s EmptyString) && all_of isdigit s then
        match rest with
        | [] => (Some (fst (read_digits 0 false s)), EmptyString, [])
        | name :: args => (Some (fst (read_digits 0 false s)), name, args)
        end
      else (None, s, rest)
  end.

(* ================================================================== *)
(** * The connector: state, effects, collaborators                    *)
(* ================================================================== *)

(** [std::stod]: the conversion itself is the C library's; what the
    connector depends on is when it throws.  [strtod] performs no
    conversion, and [std::stod] throws [invalid_argument], unless, after
    leading white space and an optional sign, the text starts with a
    digit, with a point followed by a digit, or with [inf] or [nan] in
    any case. *)
Definition lower (c : ascii) : ascii :=
  let n := nat_of_ascii c in
  if Nat.leb 65 n && Nat.leb n 90 then ascii_of_nat (n + 32) else c.

Fixpoint lower_string (s : string) : string :=
  match s with
  | EmptyString => EmptyString
  | String c r => String (lower c) (lower_string r)
  end.

Definition strtod_converts (str : string) : bool :=
  let s := skipws str in
  let body :=
    match s with
    | String c r => if Ascii.eqb c "-" || Ascii.eqb c "+" then r else s
    | EmptyString => s
    end in
  match body with
  | String c r =>
      isdigit c
      || (Ascii.eqb c "." && match r with String d _ => isdigit d | EmptyString => false end)
      || prefix "inf" (lower_string body)
      || prefix "nan" (lower_string body)
  | EmptyString => false
  end.

(** [Color] of board.h, as far as gtp.h uses it. *)
Inductive Color : Set := kEmpty | kBlack | kWhite.

Definition Color_eqb (a b : Color) : bool :=
  match a, b with
  | kEmpty, kEmpty | kBlack, kBlack | kWhite, kWhite => true
  | _, _ => false
  end.

(** What a run of the connector does to the outside, in order: the writes
    and calls that gtp.h makes itself.  A call of the search is one event;
    what the search prints while it runs belongs to the search tree and is
    not listed. *)
Inductive Event : Type :=
| EvStdout (text : string)      (* SendGTPCommand: vfprintf(stdout, ...) *)
| EvStderr (text : string)      (* fprintf(stderr, ...), std::cerr *)
| EvLog (text : string)         (* *tree_.log_file() << ... *)
| EvSleep (msec : Z)            (* std::this_thread::sleep_for *)
| EvSearch (time_limit : float) (ponder : bool) (interval : Z).
                                (* tree_.Search(b_, time_limit, _, false, ponder, interval) *)

Definition is_stdout (e : Event) : bool :=
  match e with EvStdout _ => true | _ => false end.

Definition is_log (e : Event) : bool :=
  match e with EvLog _ => true | _ => false end.

Definition is_search (e : Event) : bool :=
  match e with EvSearch _ _ _ => true | _ => false end.

(** How a run ends when it does not return. *)
Inductive Fault : Set :=
| Uncaught (e : exception)   (* no handler anywhere: std::terminate *)
| PastTheEnd                 (* args_[i] with i >= args_.size() *)
| FrontOfEmpty.              (* command_queue_.front() on an empty deque *)

Section Connector.

(** [W] holds what the connector reaches but does not define: the board
    [b_], the search tree [tree_], [sgf_] and the global [Options]. *)
Variable W : Type.

(** The data members of [GTPConnector] (lines 355-367). *)
Record GTPConnector : Type := mkGTP
  { world : W;
    c_engine_ : Color;
    command_queue_ : list string;
    go_ponder_ : bool;
    save_log_ : bool;
    args_ : list string;
    success_handle_ : bool;
    lizzie_interval_ : Z }.

Definition set_world (w : W) (g : GTPConnector) : GTPConnector :=
  mkGTP w (c_engine_ g) (command_queue_ g) (go_ponder_ g) (save_log_ g)
        (args_ g) (success_handle_ g) (lizzie_interval_ g).
Definition set_queue (q : list string) (g : GTPConnector) : GTPConnector :=
  mkGTP (world g) (c_engine_ g) q (go_ponder_ g) (save_log_ g)
        (args_ g) (success_handle_ g) (lizzie_interval_ g).
Definition set_go_ponder (b : bool) (g : GTPConnector) : GTPConnector :=
  mkGTP (world g) (c_engine_ g) (command_queue_ g) b (save_log_ g)
        (args_ g) (success_handle_ g) (lizzie_interval_ g).
Definition set_args (a : list string) (g : GTPConnector) : GTPConnector :=
  mkGTP (world g) (c_engine_ g) (command_queue_ g) (go_ponder_ g) (save_log_ g)
        a (success_handle_ g) (lizzie_interval_ g).
Definition set_success (b : bool) (g : GTPConnector) : GTPConnector :=
  mkGTP (world g) (c_engine_ g) (command_queue_ g) (go_ponder_ g) (save_log_ g)
        (args_ g) b (lizzie_interval_ g).
Definition set_lizzie (n : Z) (g : GTPConnector) : GTPConnector :=
  mkGTP (world g) (c_engine_ g) (command_queue_ g) (go_ponder_ g) (save_log_ g)
        (args_ g) (success_handle_ g) n.

(** ** The monad of member functions: state, trace, fault *)

Inductive Outcome (A : Type) : Type :=
| Done (a : A) (g : GTPConnector)
| Abort (f : Fault).
Arguments Done {A} a g.
Arguments Abort {A} f.

Definition M (A : Type) : Type := GTPConnector -> list Event * Outcome A.

Definition ret {A} (a : A) : M A := fun g => ([], Done a g).

Definition bind {A B} (m : M A) (k : A -> M B) : M B :=
  fun g =>
    match m g with
    | (tr, Done a g') => let (tr', o) := k a g' in ((tr ++ tr')%list, o)
    | (tr, Abort f) => (tr, Abort f)
    end.

Definition get : M GTPConnector := fun g => ([], Done g g).
Definition modify (f : GTPConnector -> GTPConnector) : M unit :=
  fun g => ([], Done tt (f g)).
Definition on_world (f : W -> W) : M unit :=
  modify (fun g => set_world (f (world g)) g).
Definition emit (e : Event) : M unit := fun g => ([e], Done tt g).
Definition abort {A} (f : Fault) : M A := fun _ => ([], Abort f).
Definition when (b : bool) (m : M unit) : M unit := if b then m else ret tt.

(** A C++ expression that may throw, evaluated where nothing catches. *)
Definition try_ {A} (r : result A) : M A :=
  match r with
  | Ok a => ret a
  | Throw e => abort (Uncaught e)
  end.

Definition trace {A} (r : list Event * Outcome A) : list Event := fst r.
Definition outcome {A} (r : list Event * Outcome A) : Outcome A := snd r.

End Connector.

Arguments mkGTP {W}.
Arguments world {W}.
Arguments c_engine_ {W}.
Arguments command_queue_ {W}.
Arguments go_ponder_ {W}.
Arguments save_log_ {W}.
Arguments args_ {W}.
Arguments success_handle_ {W}.
Arguments lizzie_interval_ {W}.
Arguments set_world {W}.
Arguments set_queue {W}.
Arguments set_go_ponder {W}.
Arguments set_args {W}.
Arguments set_success {W}.
Arguments set_lizzie {W}.
Arguments Done {W A}.
Arguments Abort {W A}.
Arguments ret {W A}.
Arguments bind {W A B}.
Arguments get {W}.
Arguments modify {W}.
Arguments on_world {W}.
Arguments emit {W}.
Arguments abort {W A}.
Arguments when {W}.
Arguments try_ {W A}.
Arguments trace {W A}.
Arguments outcome {W A}.

Declare Scope gtp_scope.
Delimit Scope gtp_scope with gtp.
Notation "x <- m ;; k" := (bind m (fun x => k))
  (at level 61, m at next level, right associativity) : gtp_scope.
Notation "m ;; k" := (bind m (fun _ => k))
  (at level 61, right associativity) : gtp_scope.
Local Open Scope gtp_scope.

(** The interface to the rest of the engine.  Every field is something
    gtp.h names and another file defines. *)
Class Collaborators (W : Type) : Type :=
  { (* option.h: the global option table *)
    Options_lizzie : W -> bool;               (* Options["lizzie"] *)
    Options_use_ponder : W -> bool;           (* Options["use_ponder"] *)
    Options_set_komi : float -> W -> W;       (* Options["komi"] = komi *)
    Options_clear_need_time_control : W -> W; (* Options["need_time_control"] = "false" *)
    (* search.h: SearchTree tree_ *)
    tree_log_file : W -> bool;                (* tree_.log_file() != nullptr *)
    tree_StopToThink : W -> W;
    tree_PrepareToThink : W -> W;
    tree_set_komi : float -> W -> W;
    tree_set_left_time : float -> W -> W;
    tree_left_time : W -> float;
    tree_byoyomi : W -> float;
    tree_main_time : W -> float;
    tree_has_eval_worker : W -> bool;
    tree_SetGPUAndMemory : W -> W;
    tree_Search : float -> bool -> Z -> W -> W;
    (* tree_.FinalScore followed by b_.PrintOwnerMap: the score, the text
       written to each stream of os_list, the world afterwards *)
    tree_FinalScore : W -> float * string * W;
    (* board.h *)
    move_before_is_pass : W -> bool;          (* b_.move_before() == kPass *)
    kBSize : Z;
    (* gtp.cc *)
    kVersion : string;
    kListCommands : list string;
    OnClearBoardCommand : M W string;
    OnGenmoveCommand : M W string;
    OnPlayCommand : M W string;
    OnUndoCommand : M W string;
    OnLzAnalyzeCommand : M W string;
    OnKgsTimeSettingsCommand : M W string;
    OnTimeSettingsCommand : M W string;
    OnSetFreeHandicapCommand : M W string;
    OnFixedHandicapCommand : M W string;
    OnGoguiPlaySequenceCommand : M W string;
    (* the C library *)
    strtod_value : string -> result float;    (* the value, or out_of_range *)
    fixed1 : float -> string                  (* "%.1f"; std::fixed << std::setprecision(1) *)
  }.

(* ================================================================== *)
(** * The member functions                                            *)
(* ================================================================== *)

Section Members.

Context {W : Type} `{Collaborators W}.

(** [std::stod(str)]. *)
Definition stod (str : string) : result float :=
  if strtod_converts str then strtod_value str else Throw invalid_argument.

(** [args_[i]]: no bounds check in the source. *)
Definition arg (i : nat) : M W string :=
  g <- get ;;
  match nth_error (args_ g) i with
  | Some a => ret a
  | None => abort PastTheEnd
  end.

(** [FindString] (lines 242-249). *)
Definition FindString (str s1 s2 s3 : string) : bool :=
  let found := false in
  let found := found || (negb (String.eqb s1 EmptyString) && contains str s1) in
  let found := found || (negb (String.eqb s2 EmptyString) && contains str s2) in
  let found := found || (negb (String.eqb s3 EmptyString) && contains str s3) in
  found.

(** [SendGTPCommand] (lines 284-289); the caller expands the format. *)
Definition SendGTPCommand (text : string) : M W unit := emit (EvStdout text).

(** [StopLizzieAnalysis] (lines 338-341). *)
Definition StopLizzieAnalysis : M W unit :=
  on_world tree_StopToThink ;;
  modify (set_lizzie (-1)).

(** [AllocateGPU] (lines 304-312). *)
Definition AllocateGPU : M W unit :=
  g <- get ;;
  if negb (tree_has_eval_worker (world g)) then
    emit (EvStderr ("allocating memory..." ++ LF)) ;;
    when (negb (save_log_ g) && negb (Options_use_ponder (world g)))
         (emit (EvSleep 5000)) ;;
    on_world tree_SetGPUAndMemory
  else ret tt.

(** [PrintFinalResult] (lines 318-333). *)
Definition PrintFinalResult : M W string :=
  g <- get ;;
  let to_log := tree_log_file (world g) in
  let '(s, owner_map, w') := tree_FinalScore (world g) in
  on_world (fun _ => w') ;;
  emit (EvStderr owner_map) ;;
  when to_log (emit (EvLog owner_map)) ;;
  if (s =? 0)%float then ret "0"
  else ret ((if (0 <? s)%float then "B+" else "W+") ++ fixed1 (abs s)).

(** [std::find(kListCommands.begin(), kListCommands.end(), x) != kListCommands.end()]. *)
Fixpoint std_find_hit (l : list string) (x : string) : bool :=
  match l with
  | [] => false
  | y :: r => if String.eqb y x then true else std_find_hit r x
  end.

(** [for (auto cmd : kListCommands) response += cmd + "\n";] from [response]. *)
Fixpoint append_commands (l : list string) (response : string) : string :=
  match l with
  | [] => response
  | cmd :: r => append_commands r (response ++ (cmd ++ LF))
  end.

(** The handler chain of [ExecuteCommand], lines 158-228: it sets
    [success_handle_] on failure and yields [response]. *)
Definition dispatch (command type : string) : M W string :=
  if FindString command "protocol_version" EmptyString EmptyString then
    ret "2"
  else if String.eqb type "name" then
    ret "AQ"
  else if String.eqb type "version" then
    g <- get ;;
    ret (if Options_lizzie (world g) then "0.16" else kVersion)
  else if String.eqb type "known_command" then
    g <- get ;;
    match args_ g with
    | a0 :: _ => ret (if std_find_hit kListCommands a0 then "true" else "false")
    | [] => ret "false"
    end
  else if String.eqb type "list_commands" then
    ret (append_commands kListCommands EmptyString ++ "= ")
  else if String.eqb type "boardsize" then
    a0 <- arg 0 ;;
    n <- try_ (stoi a0) ;;
    if negb (n =? kBSize) then
      modify (set_success false) ;;
      let response :=
        "This build is allowed to play in only " ++ to_string kBSize ++ " board." in
      emit (EvStderr ("? " ++ c_str response ++ LF)) ;;
      ret response
    else ret EmptyString
  else if String.eqb type "clear_board" then
    OnClearBoardCommand
  else if String.eqb type "komi" then
    a0 <- arg 0 ;;
    komi <- try_ (stod a0) ;;
    on_world (Options_set_komi komi) ;;
    on_world (tree_set_komi komi) ;;
    emit (EvStderr ("set komi=" ++ fixed1 komi ++ "." ++ LF)) ;;
    ret EmptyString
  else if String.eqb type "time_left" then
    a0 <- arg 0 ;;
    let c := if FindString a0 "B" "b" EmptyString then kBlack
             else if FindString a0 "W" "w" EmptyString then kWhite
             else kEmpty in
    a1 <- arg 1 ;;
    left_time <- try_ (stod a1) ;;
    g <- get ;;
    when (Color_eqb (c_engine_ g) kEmpty || Color_eqb (c_engine_ g) c)
         (on_world (tree_set_left_time left_time)) ;;
    on_world Options_clear_need_time_control ;;
    ret EmptyString
  else if String.eqb type "genmove" then
    OnGenmoveCommand
  else if String.eqb type "play" then
    OnPlayCommand
  else if String.eqb type "undo" then
    OnUndoCommand
  else if String.eqb type "final_score" then
    PrintFinalResult
  else if String.eqb type "lz-analyze" then
    OnLzAnalyzeCommand
  else if String.eqb type "kgs-time_settings" then
    OnKgsTimeSettingsCommand
  else if String.eqb type "time_settings" then
    OnTimeSettingsCommand
  else if String.eqb type "set_free_handicap" then
    OnSetFreeHandicapCommand
  else if String.eqb type "fixed_handicap" || String.eqb type "place_free_handicap" then
    OnFixedHandicapCommand
  else if String.eqb type "gogui-play_sequence" then
    OnGoguiPlaySequenceCommand
  else if String.eqb type "kgs-game_over" then
    modify (set_go_ponder false) ;;
    ret EmptyString
  else if String.eqb type "quit" then
    StopLizzieAnalysis ;;
    _ <- PrintFinalResult ;;
    ret EmptyString
  else
    modify (set_success false) ;;
    let response := "unknown command." in
    emit (EvStderr ("? " ++ c_str response ++ LF)) ;;
    ret response.

(** The text the final [SendGTPCommand("%s %s%s\n", ...)] writes, lines
    230-234, from the state the handler left. *)
Definition head_str (g : GTPConnector W) (command_id : Z) : string :=
  (if success_handle_ g then "=" else "?")
    ++ (if 0 <=? command_id then to_string command_id else EmptyString).

Definition newline_str (g : GTPConnector W) : string :=
  if lizzie_interval_ g <? 0 then LF else EmptyString.

Definition response_text (g : GTPConnector W) (command_id : Z) (response : string) : string :=
  c_str (head_str g command_id) ++ " " ++ c_str response
    ++ c_str (newline_str g) ++ LF.

(** Lines 144-156: the log line, the parse, the reset of the flag and the
    end of a running streamed analysis. *)
Definition prologue (command : string) : M W Parsed :=
  g <- get ;;
  when (tree_log_file (world g)) (emit (EvLog (command ++ LF))) ;;
  p <- try_ (ParseCommand command) ;;
  modify (set_args (p_args p)) ;;
  modify (set_success true) ;;
  g <- get ;;
  when (0 <? lizzie_interval_ g)
       (SendGTPCommand LF ;; StopLizzieAnalysis) ;;
  ret p.

(** Lines 158-236: the handler chain, the response and the return value. *)
Definition answer (command : string) (p : Parsed) : M W bool :=
  let command_id := p_id p in
  let type := p_type p in
  response <- dispatch command type ;;
  g <- get ;;
  SendGTPCommand (response_text g command_id response) ;;
  ret (negb (String.eqb type "quit")).

(** [ExecuteCommand] (lines 143-237). *)
Definition ExecuteCommand (command : string) : M W bool :=
  p <- prologue command ;;
  answer command p.

(** Line 101-103: whether this iteration ponders. *)
Definition start_pondering (g : GTPConnector W) : bool :=
  Options_use_ponder (world g) && go_ponder_ g
  && negb (move_before_is_pass (world g))
  && ((10 <? tree_left_time (world g))%float
      || negb (tree_byoyomi (world g) =? 0)%float).

(** Lines 109-114: the time limit handed to the pondering search. *)
Definition time_limit (w : W) : float :=
  if Options_lizzie w then 86400%float
  else if (0 <? tree_byoyomi w)%float && (0 <? tree_main_time w)%float
          && (tree_left_time w <? tree_byoyomi w * 2)%float
       then (tree_byoyomi w * 2)%float
       else 100%float.

(** Lines 121-124: the front of the queue, taken under the lock.  Nothing
    waits for the reader thread: on an empty deque [front()] is undefined. *)
Definition pop_command : M W string :=
  g <- get ;;
  match command_queue_ g with
  | command :: rest => modify (set_queue rest) ;; ret command
  | [] => abort FrontOfEmpty
  end.

(** One iteration of [while (running)] in [Start] (lines 100-140); the
    result is the value [running] has at the end of the iteration.  The
    reader thread only appends to [command_queue_]; the iteration sees the
    queue as it is when it takes the lock. *)
Definition Start_iteration : M W bool :=
  g <- get ;;
  let pondering := start_pondering g in
  when pondering AllocateGPU ;;
  when pondering
    (g <- get ;;
     let limit := time_limit (world g) in
     emit (EvSearch limit true (lizzie_interval_ g)) ;;
     on_world (tree_Search limit true (lizzie_interval_ g))) ;;
  command <- pop_command ;;
  when (negb (String.eqb command EmptyString) && pondering)
       (on_world tree_StopToThink ;; emit (EvSleep 10)) ;;
  on_world tree_PrepareToThink ;;
  if String.eqb command EmptyString || String.eqb command LF then ret true
  else ExecuteCommand command.

(** [Start] (lines 85-141), for at most [fuel] iterations of its loop:
    [Some tt] when [running] became false within them, [None] when the
    loop would go on. *)
Fixpoint Start (fuel : nat) : M W (option unit) :=
  match fuel with
  | O => ret None
  | S n =>
      running <- Start_iteration ;;
      if running then Start n else ret (Some tt)
  end.

End Members.

(* ================================================================== *)
(** * Vocabulary of the statements                                    *)
(* ================================================================== *)

Section TakeDrop.
Context {A : Type} (p : A -> bool).

Fixpoint take_while (l : list A) : list A :=
  match l with
  | x :: r => if p x then x :: take_while r else []
  | [] => []
  end.

Fixpoint drop_while (l : list A) : list A :=
  match l with
  | x :: r => if p x then drop_while r else l
  | [] => []
  end.

End TakeDrop.

(** A token the scan passes over before it has a name: what [strip_eq]
    leaves of it is empty or all digits. *)
Definition before_name (t : string) : bool := all_of isdigit (strip_eq t).

(** A token that sets the id: what [strip_eq] leaves is digits, at least one. *)
Definition carries_id (t : string) : bool :=
  negb (String.eqb (strip_eq t) EmptyString) && all_of isdigit (strip_eq t).

(** All the conversions, or the first exception. *)
Fixpoint collect (l : list (result Z)) : result (list Z) :=
  match l with
  | [] => Ok []
  | Ok n :: r => match collect r with Ok ns => Ok (n :: ns) | Throw e => Throw e end
  | Throw e :: _ => Throw e
  end.

(** The decimal value of a string of digits. *)
Definition decimal (s : string) : Z := fst (read_digits 0 false s).


(** The parser meets the specification on [line] when it returns the
    frame that section 4.4 describes. *)
Definition parser_meets_spec_on (line : string) : Prop :=
  exists p, ParseCommand line = Ok p /\ frame_of p = spec_ParseCommand line.

(** Token lists on which the scan and section 4.4 cannot differ: the first
    token, stripped, is a name; or it is an id that fits an [int] and the
    token after it, if any, is a name as it stands. *)
Definition plain_head (toks : list string) : bool :=
  match toks with
  | [] => true
  | t :: rest =>
      if carries_id t then
        match stoi (strip_eq t), rest with
        | Ok _, [] => true
        | Ok _, u :: _ => negb (before_name u) && negb (prefix "=" u)
        | Throw _, _ => false
        end
      else negb (String.eqb (strip_eq t) EmptyString)
  end.

(** A string with no white space in it. *)
Definition no_space (t : string) : bool := all_of (fun c => negb (isspace c)) t.

(** Whether the character [c] occurs in [s]. *)
Fixpoint char_in (c : ascii) (s : string) : bool :=
  match s with
  | EmptyString => false
  | String x r => Ascii.eqb x c || char_in c r
  end.


Section Vocabulary.

Context {W : Type} `{Collaborators W}.

(** What line 145 writes. *)
Definition log_events (g : GTPConnector W) (command : string) : list Event :=
  if tree_log_file (world g) then [EvLog (command ++ LF)] else [].

(** The state in which the handler chain starts, after lines 149-156 have
    stored the arguments, reset the flag and ended a running streamed
    analysis. *)
Definition at_dispatch (p : Parsed) (g : GTPConnector W) : GTPConnector W :=
  let g1 := set_success true (set_args (p_args p) g) in
  if 0 <? lizzie_interval_ g
  then set_lizzie (-1) (set_world (tree_StopToThink (world g1)) g1)
  else g1.

(** What line 154 writes when a streamed analysis is on. *)
Definition stop_events (g : GTPConnector W) : list Event :=
  if 0 <? lizzie_interval_ g then [EvStdout LF] else [].

(** The end of a response (line 232 and the format of line 233). *)
Definition terminator (g : GTPConnector W) : string :=
  if lizzie_interval_ g <? 0 then LF ++ LF else LF.

(** The names the handler chain compares [type] with, in its order, after
    the test of the line for [protocol_version]. *)
Definition handled_names : list string :=
  [ "protocol_version"; "name"; "version"; "known_command"; "list_commands";
    "boardsize"; "clear_board"; "komi"; "time_left"; "genmove"; "play";
    "undo"; "final_score"; "lz-analyze"; "kgs-time_settings";
    "time_settings"; "set_free_handicap"; "fixed_handicap";
    "place_free_handicap"; "gogui-play_sequence"; "kgs-game_over"; "quit" ].

(** The response of the handler chain, as written to [stdout]. *)
Definition marker (g : GTPConnector W) : string :=
  if success_handle_ g then "=" else "?".

Definition id_text (command_id : Z) : string :=
  if 0 <=? command_id then to_string command_id else EmptyString.

(** The framing as section 4.7 of the specification words it: nothing
    follows the body while the streamed analysis is on. *)
Definition spec_response_text (g : GTPConnector W) (command_id : Z)
    (body : string) : string :=
  marker g ++ id_text command_id ++ " " ++ body
    ++ (if 0 <? lizzie_interval_ g then EmptyString else LF ++ LF).

Definition framing_as_specified : Prop :=
  forall (command : string) (g g0 g' : GTPConnector W) (p : Parsed)
         (tr0 tr : list Event) (response : string),
    prologue command g = (tr0, Done p g0) ->
    dispatch command (p_type p) g0 = (tr, Done response g') ->
    exists pre,
      trace (ExecuteCommand command g)
      = (pre ++ [EvStdout (spec_response_text g' (p_id p) (c_str response))])%list.

(** The handling of blank lines as section 7 words it: a line with an
    empty command name is dropped by the loop. *)
Definition blank_lines_ignored : Prop :=
  forall (g : GTPConnector W) (line : string) (q : list string) (p : Parsed),
    ParseCommand line = Ok p ->
    p_type p = EmptyString ->
    command_queue_ g = line :: q ->
    exists tr g',
      Start_iteration g = (tr, Done true g') /\ filter is_stdout tr = [].

(** The answers of [list_commands] and [known_command] as section 8 words
    them. *)
Definition command_list_as_specified : Prop :=
  (forall (command : string) (g g0 : GTPConnector W) (p : Parsed) (tr0 : list Event),
      prologue command g = (tr0, Done p g0) ->
      p_type p = "list_commands" ->
      exists tr g',
        dispatch command (p_type p) g0
        = (tr, Done (String.concat LF kListCommands) g'))
  /\ (forall (name : string) (g : GTPConnector W),
         In name kListCommands ->
         exists pre g',
           ExecuteCommand ("known_command " ++ name) g
           = ((pre ++ [EvStdout (response_text g' (-1) "true")])%list,
              Done true g'))
  /\ (forall (name : string) (g : GTPConnector W),
         tokens name = [name] ->
         ~ In name kListCommands ->
         exists pre g',
           ExecuteCommand ("known_command " ++ name) g
           = ((pre ++ [EvStdout (response_text g' (-1) "false")])%list,
              Done true g')).

(** The body of a refused [boardsize] (lines 179-180). *)
Definition boardsize_refusal : string :=
  "This build is allowed to play in only " ++ to_string kBSize ++ " board.".



(** The body of [list_commands] (lines 172-173): every name followed by a
    line feed, then the two characters of line 173. *)
Definition command_listing : string :=
  String.concat EmptyString (map (fun cmd => cmd ++ LF) kListCommands) ++ "= ".

(** The part of an iteration before the queue is read (lines 101-117). *)
Definition ponder (g : GTPConnector W) : list Event * GTPConnector W :=
  if start_pondering g then
    match AllocateGPU g with
    | (pre, Done _ g1) =>
        let limit := time_limit (world g1) in
        ((pre ++ [EvSearch limit true (lizzie_interval_ g1)])%list,
         set_world (tree_Search limit true (lizzie_interval_ g1) (world g1)) g1)
    | (pre, Abort _) => (pre, g)
    end
  else ([], g).


End Vocabulary.

(** Modelled from the spec: [kListCommands] is declared in gtp.h (line 40)
    and defined in another file; section 6 of the specification gives its
    contents, the closed set of recognized commands. *)
Definition recognized_commands : list string :=
  [ "protocol_version"; "name"; "version"; "known_command"; "list_commands";
    "boardsize"; "clear_board"; "komi"; "time_left"; "genmove"; "play";
    "undo"; "final_score"; "lz-analyze"; "kgs-time_settings";
    "time_settings"; "set_free_handicap"; "fixed_handicap";
    "place_free_handicap"; "gogui-play_sequence"; "kgs-game_over"; "quit" ].

(* ================================================================== *)
(** * A small engine to run the connector on                          *)
(* ================================================================== *)

Module Demo.

(** The options and the clock of the search tree; the board is reduced to
    whether the last move was a pass. *)
Record World : Type := mkWorld
  { lizzie : bool;
    use_ponder : bool;
    log_open : bool;
    last_pass : bool;
    eval_worker : bool;
    thinking : bool;
    komi : float;
    left_time : float;
    byoyomi : float;
    main_time : float }.

Definition stop (w : World) : World :=
  mkWorld (lizzie w) (use_ponder w) (log_open w) (last_pass w) (eval_worker w)
          false (komi w) (left_time w) (byoyomi w) (main_time w).
Definition think (w : World) : World :=
  mkWorld (lizzie w) (use_ponder w) (log_open w) (last_pass w) (eval_worker w)
          true (komi w) (left_time w) (byoyomi w) (main_time w).
Definition with_komi (k : float) (w : World) : World :=
  mkWorld (lizzie w) (use_ponder w) (log_open w) (last_pass w) (eval_worker w)
          (thinking w) k (left_time w) (byoyomi w) (main_time w).
Definition with_left_time (t : float) (w : World) : World :=
  mkWorld (lizzie w) (use_ponder w) (log_open w) (last_pass w) (eval_worker w)
          (thinking w) (komi w) t (byoyomi w) (main_time w).
Definition with_eval_worker (w : World) : World :=
  mkWorld (lizzie w) (use_ponder w) (log_open w) (last_pass w) true
          (thinking w) (komi w) (left_time w) (byoyomi w) (main_time w).

(** A handler that answers with an empty body and changes nothing. *)
Definition quiet : M World string := ret EmptyString.

(** A handler for [lz-analyze] that turns the streamed analysis on. *)
Definition analyze : M World string :=
  modify (set_lizzie 100) ;;
  modify (set_go_ponder true) ;;
  ret EmptyString.

#[global] Instance engine : Collaborators World :=
  {| Options_lizzie := lizzie;
     Options_use_ponder := use_ponder;
     Options_set_komi := with_komi;
     Options_clear_need_time_control := fun w => w;
     tree_log_file := log_open;
     tree_StopToThink := stop;
     tree_PrepareToThink := fun w => w;
     tree_set_komi := with_komi;
     tree_set_left_time := with_left_time;
     tree_left_time := left_time;
     tree_byoyomi := byoyomi;
     tree_main_time := main_time;
     tree_has_eval_worker := eval_worker;
     tree_SetGPUAndMemory := with_eval_worker;
     tree_Search := fun _ _ _ w => think w;
     tree_FinalScore := fun w => (0%float, EmptyString, w);
     move_before_is_pass := last_pass;
     kBSize := 19;
     kVersion := "0";
     kListCommands := recognized_commands;
     OnClearBoardCommand := quiet;
     OnGenmoveCommand := quiet;
     OnPlayCommand := quiet;
     OnUndoCommand := quiet;
     OnLzAnalyzeCommand := analyze;
     OnKgsTimeSettingsCommand := quiet;
     OnTimeSettingsCommand := quiet;
     OnSetFreeHandicapCommand := quiet;
     OnFixedHandicapCommand := quiet;
     OnGoguiPlaySequenceCommand := quiet;
     strtod_value := fun _ => Ok 0%float;
     fixed1 := fun _ => "0.0" |}.

Definition idle : World :=
  mkWorld false false false false false false 0%float 0%float 0%float 0%float.

(** A game on a clock of 600 with byoyomi periods of 30, 20 left, the
    opponent to move. *)
Definition in_game : World :=
  mkWorld false true false false true false 0%float 20%float 30%float 600%float.

(** The same game with 500 left, and with the lizzie option set. *)
Definition early_game : World :=
  mkWorld false true false false true false 0%float 500%float 30%float 600%float.

Definition analysis : World :=
  mkWorld true true false false true false 0%float 20%float 30%float 600%float.

(** The connector as its constructor leaves it (lines 57-60), on [w], with
    [queue] read so far. *)
Definition fresh (w : World) (queue : list string) : GTPConnector World :=
  mkGTP w kEmpty queue false false [] true (-1).

(** The same, with a streamed analysis on. *)
Definition streaming : GTPConnector World :=
  mkGTP idle kEmpty [] true false [] true 100.

(** The same, in a game on [w] and about to ponder. *)
Definition pondering (w : World) (queue : list string) : GTPConnector World :=
  mkGTP w kWhite queue true false [] true (-1).

End Demo.

(* ================================================================== *)
(** * Vocabulary of the further properties                            *)
(* ================================================================== *)

(** [s] occurs in [str]: what [str.find(s) != std::string::npos] decides. *)
Definition occurs (s str : string) : Prop :=
  exists a b, str = a ++ s ++ b.

(** A word as [iss >> s] yields them: not empty, no white space. *)
Definition is_word (t : string) : bool :=
  negb (String.eqb t EmptyString) && no_space t.

(** A word that [ParseCommand] takes for a name as it stands: no leading
    '=', and not made of digits only. *)
Definition is_name (t : string) : bool :=
  is_word t && negb (prefix "=" t) && negb (all_of isdigit t).

(** A command line as a client writes it: the id if there is one, the
    name, the arguments, with one space between them. *)
Definition command_line (id : option Z) (name : string) (args : list string)
    : string :=
  String.concat " "
    ((match id with Some n => [to_string n] | None => [] end) ++ name :: args)%list.

(** Whether [s] starts with a digit. *)
Definition leading_digit (s : string) : bool :=
  match s with
  | String c _ => isdigit c
  | EmptyString => false
  end.

(** The names the chain hands to a handler that another file defines
    (lines 183-218). *)
Definition handler_names : list string :=
  [ "clear_board"; "genmove"; "play"; "undo"; "lz-analyze";
    "kgs-time_settings"; "time_settings"; "set_free_handicap";
    "fixed_handicap"; "place_free_handicap"; "gogui-play_sequence" ].

(** The game of [Demo.in_game] before the evaluator has been acquired. *)
Definition cold_game : Demo.World :=
  Demo.mkWorld false true false false false false 0%float 20%float 30%float 600%float.

(* ================================================================== *)
(** * The parser: what it computes                                    *)
(* ================================================================== *)

Lemma substring_all (s : string) : substring 0 (String.length s) s = s.
Proof.
  induction s as [|c r IH]; simpl; [reflexivity|]. now rewrite IH.
Qed.

Lemma strip_eq_cons (c : ascii) (r : string) :
  strip_eq (String c r) = if Ascii.eqb c "=" then r else String c r.
Proof.
  unfold strip_eq, substr_from. simpl.
  replace (substring 0 0 r) with EmptyString by (destruct r; reflexivity).
  rewrite Nat.sub_0_r, substring_all.
  destruct (Ascii.eqb_spec c "=") as [->|Hc].
  - reflexivity.
  - destruct (String.eqb_spec (String c EmptyString) "=") as [E|E];
      [inversion E; contradiction | reflexivity].
Qed.

Lemma read_digits_seen (s : string) (acc : Z) :
  snd (read_digits acc true s) = true.
Proof.
  revert acc; induction s as [|c r IH]; intros acc; simpl; [reflexivity|].
  destruct (isdigit c); [apply IH | reflexivity].
Qed.

Lemma digit_value_nonneg (c : ascii) : isdigit c = true -> 0 <= digit_value c.
Proof.
  unfold isdigit, digit_value. cbv zeta. intros Hd.
  apply andb_prop in Hd as [Hlo _]. apply Nat.leb_le in Hlo. lia.
Qed.

Lemma read_digits_nonneg (s : string) (acc : Z) (b : bool) :
  0 <= acc -> 0 <= fst (read_digits acc b s).
Proof.
  revert acc b; induction s as [|c r IH]; intros acc b Hacc;
    cbn [read_digits]; [assumption|].
  destruct (isdigit c) eqn:Hd; [|assumption].
  apply IH. pose proof (digit_value_nonneg c Hd). lia.
Qed.

Lemma isdigit_not_space (c : ascii) : isdigit c = true -> isspace c = false.
Proof.
  unfold isdigit, isspace. cbv zeta. intros Hd.
  apply andb_prop in Hd as [Hlo Hhi].
  apply Nat.leb_le in Hlo. apply Nat.leb_le in Hhi.
  apply orb_false_intro.
  - apply Nat.eqb_neq. lia.
  - apply andb_false_intro2. apply Nat.leb_gt. lia.
Qed.

Lemma isdigit_not_sign (c : ascii) :
  isdigit c = true -> Ascii.eqb c "-" = false /\ Ascii.eqb c "+" = false.
Proof.
  intros Hd. split.
  - destruct (Ascii.eqb_spec c "-") as [->|]; [discriminate Hd | reflexivity].
  - destruct (Ascii.eqb_spec c "+") as [->|]; [discriminate Hd | reflexivity].
Qed.

(** [std::stoi] on a non-empty string of digits: its decimal value when
    that fits an [int], [out_of_range] otherwise. *)
Lemma stoi_digits (s : string) :
  s <> EmptyString -> all_of isdigit s = true ->
  stoi s = if decimal s <=? INT_MAX then Ok (decimal s) else Throw out_of_range.
Proof.
  intros Hne Hall. destruct s as [|c r]; [contradiction|].
  simpl in Hall. apply andb_prop in Hall as [Hc Hr].
  unfold stoi, decimal. simpl skipws.
  rewrite (isdigit_not_space c Hc).
  destruct (isdigit_not_sign c Hc) as [-> ->].
  destruct (read_digits 0 false (String c r)) as [v seen] eqn:E.
  assert (Hseen : seen = true).
  { change seen with (snd (v, seen)). rewrite <- E. simpl. rewrite Hc.
    apply read_digits_seen. }
  assert (Hv : 0 <= v).
  { change v with (fst (v, seen)). rewrite <- E. apply read_digits_nonneg. lia. }
  subst seen. simpl.
  replace (INT_MIN <=? v) with true
    by (symmetry; apply Z.leb_le; unfold INT_MIN; lia).
  reflexivity.
Qed.

(** Once the name is set, every further token is an argument. *)
Lemma ParseCommand_loop_named (toks : list string) (st : Parsed) :
  p_type st <> EmptyString ->
  ParseCommand_loop toks st =
  Ok {| p_type := p_type st; p_id := p_id st; p_args := (p_args st ++ toks)%list |}.
Proof.
  revert st; induction toks as [|t r IH]; intros st Hty; simpl.
  - rewrite app_nil_r. destruct st; reflexivity.
  - unfold ParseCommand_body.
    destruct (String.eqb_spec (p_type st) EmptyString) as [E|_]; [contradiction|].
    rewrite IH by assumption. simpl. now rewrite <- app_assoc.
Qed.

Lemma last_cons_default (ids : list Z) (n d : Z) :
  last (n :: ids) d = last ids n.
Proof.
  revert n d; induction ids as [|m r IH]; intros n d; [reflexivity|].
  change (last (n :: m :: r) d) with (last (m :: r) d).
  rewrite IH. symmetry. apply IH.
Qed.

(** The scan before the name, from a state with no name yet. *)
Lemma ParseCommand_loop_scan (toks : list string) (id : Z) :
  ParseCommand_loop toks {| p_type := EmptyString; p_id := id; p_args := [] |} =
  match collect (map (fun t => stoi (strip_eq t))
                     (filter carries_id (take_while before_name toks))) with
  | Throw e => Throw e
  | Ok ids =>
      Ok {| p_type := match drop_while before_name toks with
                      | t :: _ => strip_eq t
                      | [] => EmptyString
                      end;
            p_id := last ids id;
            p_args := tl (drop_while before_name toks) |}
  end.
Proof.
  revert id; induction toks as [|t r IH]; intros id; [reflexivity|].
  cbn [ParseCommand_loop take_while drop_while].
  unfold ParseCommand_body. cbn [p_type p_id p_args].
  change (String.eqb EmptyString EmptyString) with true. cbv iota.
  destruct (String.eqb (strip_eq t) EmptyString) eqn:E.
  - assert (Hb : before_name t = true).
    { unfold before_name. apply String.eqb_eq in E. now rewrite E. }
    assert (Hc : carries_id t = false) by (unfold carries_id; now rewrite E).
    rewrite Hb. cbn [filter]. rewrite Hc. apply IH.
  - destruct (all_of isdigit (strip_eq t)) eqn:Hd.
    + assert (Hb : before_name t = true) by exact Hd.
      assert (Hc : carries_id t = true) by (unfold carries_id; now rewrite E, Hd).
      rewrite Hb. cbn [filter]. rewrite Hc. cbn [map collect].
      destruct (stoi (strip_eq t)) as [n|e]; [|reflexivity].
      rewrite IH.
      destruct (collect _) as [ids|e]; [|reflexivity].
      now rewrite last_cons_default.
    + assert (Hb : before_name t = false) by exact Hd.
      rewrite Hb. cbn [filter map collect last tl].
      rewrite ParseCommand_loop_named
        by (cbn [p_type]; intros E'; rewrite E' in E; discriminate E).
      reflexivity.
Qed.

Lemma strip_eq_spec (t : string) :
  strip_eq t = match t with
               | String c r => if Ascii.eqb c "=" then r else t
               | EmptyString => t
               end.
Proof. destruct t; [reflexivity | apply strip_eq_cons]. Qed.

Lemma strip_eq_no_prefix (u : string) : prefix "=" u = false -> strip_eq u = u.
Proof.
  destruct u as [|c r]; [reflexivity|]. rewrite strip_eq_cons. simpl.
  destruct (Ascii.eqb_spec c "=") as [->|Hc].
  - simpl. destruct r; discriminate.
  - reflexivity.
Qed.

Lemma ParseCommand_plain (line : string) :
  plain_head (tokens line) = true -> parser_meets_spec_on line.
Proof.
  unfold parser_meets_spec_on, ParseCommand, spec_ParseCommand, Parsed_init.
  destruct (tokens line) as [|t rest]; intros Hp.
  - eexists; split; reflexivity.
  - cbn [plain_head] in Hp. rewrite <- strip_eq_spec.
    cbn [ParseCommand_loop]. unfold ParseCommand_body. cbn [p_type p_id p_args].
    change (String.eqb EmptyString EmptyString) with true. cbv iota.
    unfold carries_id in Hp.
    destruct (String.eqb (strip_eq t) EmptyString) eqn:E; cbn [negb andb] in Hp |- *.
    + discriminate Hp.
    + destruct (all_of isdigit (strip_eq t)) eqn:Hd.
      * assert (Hne : strip_eq t <> EmptyString)
          by (intros E'; rewrite E' in E; discriminate E).
        pose proof (stoi_digits _ Hne Hd) as Hs.
        assert (Hpos : 0 <= decimal (strip_eq t))
          by (apply read_digits_nonneg; lia).
        destruct (decimal (strip_eq t) <=? INT_MAX); rewrite Hs in Hp |- *;
          [|discriminate Hp].
        destruct rest as [|u args].
        -- eexists; split; [reflexivity|]. unfold frame_of. cbn [p_id p_type p_args].
           apply Z.leb_le in Hpos. rewrite Hpos. reflexivity.
        -- apply andb_prop in Hp as [Hu Hq].
           apply negb_true_iff in Hu. apply negb_true_iff in Hq.
           cbn [ParseCommand_loop]. unfold ParseCommand_body. cbn [p_type p_id p_args].
           change (String.eqb EmptyString EmptyString) with true. cbv iota.
           unfold before_name in Hu. rewrite (strip_eq_no_prefix u Hq) in *.
           destruct (String.eqb u EmptyString) eqn:Eu.
           { apply String.eqb_eq in Eu. subst u. discriminate Hu. }
           rewrite Hu.
           rewrite ParseCommand_loop_named
             by (cbn [p_type]; intros E'; rewrite E' in Eu; discriminate Eu).
           eexists; split; [reflexivity|]. unfold frame_of. cbn [p_id p_type p_args].
           apply Z.leb_le in Hpos. rewrite Hpos. reflexivity.
      * rewrite ParseCommand_loop_named
          by (cbn [p_type]; intros E'; rewrite E' in E; discriminate E).
        eexists; split; reflexivity.
Qed.


(** ** The words of a line *)

Lemma no_space_snoc (cur : string) (c : ascii) :
  no_space cur = true -> isspace c = false ->
  no_space (cur ++ String c EmptyString) = true.
Proof.
  unfold no_space. induction cur as [|x cur IH]; simpl; intros Hc Hx.
  - now rewrite Hx.
  - apply andb_prop in Hc as [-> Hc]. now rewrite IH.
Qed.

Lemma words_shape (s cur : string) :
  no_space cur = true ->
  Forall (fun t => t <> EmptyString /\ no_space t = true) (words cur s).
Proof.
  revert cur; induction s as [|x r IH]; intros cur Hcur; cbn [words].
  - destruct (String.eqb_spec cur EmptyString) as [->|Hne]; constructor; auto.
  - destruct (isspace x) eqn:Hx.
    + destruct (String.eqb_spec cur EmptyString) as [->|Hne].
      * now apply IH.
      * constructor; [auto | now apply IH].
    + apply IH. now apply no_space_snoc.
Qed.

(** Every word [iss >> s] yields is non-empty and holds no white space. *)
Lemma tokens_shape (s : string) :
  Forall (fun t => t <> EmptyString /\ no_space t = true) (tokens s).
Proof. now apply words_shape. Qed.

(** ** Where the characters of a line go *)

Lemma append_snoc (a b : string) (x : ascii) :
  (a ++ String x EmptyString) ++ b = a ++ String x b.
Proof. induction a as [|y a IH]; simpl; [reflexivity | now rewrite IH]. Qed.












(* ================================================================== *)
(** * The dispatcher: how a run unfolds                               *)
(* ================================================================== *)

Lemma append_assoc (a b c : string) : (a ++ b) ++ c = a ++ (b ++ c).
Proof. induction a as [|x a IH]; simpl; [reflexivity | now rewrite IH]. Qed.

Lemma append_nil_r (s : string) : s ++ EmptyString = s.
Proof. induction s as [|c s IH]; simpl; [reflexivity | now rewrite IH]. Qed.

Lemma c_str_app (a b : string) : c_str a = a -> c_str (a ++ b) = a ++ c_str b.
Proof.
  induction a as [|x a IH]; simpl; [reflexivity|].
  destruct (Ascii.eqb x NUL); [discriminate|].
  intros E. injection E as E. now rewrite IH.
Qed.

Lemma c_str_uint (d : Decimal.uint) :
  c_str (NilEmpty.string_of_uint d) = NilEmpty.string_of_uint d.
Proof. induction d; simpl; try rewrite IHd; reflexivity. Qed.

Lemma c_str_to_string (n : Z) : c_str (to_string n) = to_string n.
Proof.
  unfold to_string. destruct (Z.to_int n) as [d|d]; simpl.
  - apply c_str_uint.
  - now rewrite c_str_uint.
Qed.

Ltac eval_eqb :=
  repeat match goal with
         | |- context [String.eqb ?a ?b] =>
             let v := eval vm_compute in (String.eqb a b) in
             match v with
             | true => change (String.eqb a b) with true
             | false => change (String.eqb a b) with false
             end
         end.

Section Runs.

Context {W : Type} `{Collaborators W}.

Lemma c_str_id_text (n : Z) : c_str (id_text n) = id_text n.
Proof. unfold id_text. destruct (0 <=? n); [apply c_str_to_string | reflexivity]. Qed.

Lemma head_str_eq (g : GTPConnector W) (n : Z) : head_str g n = marker g ++ id_text n.
Proof. reflexivity. Qed.

Lemma c_str_head_str (g : GTPConnector W) (n : Z) : c_str (head_str g n) = head_str g n.
Proof.
  rewrite head_str_eq. unfold marker.
  destruct (success_handle_ g); rewrite c_str_app by reflexivity;
    now rewrite c_str_id_text.
Qed.

(** The text of a response: marker, id, one space, the body up to a NUL,
    and two line feeds, or one when [lizzie_interval_] is not negative. *)
Lemma response_text_eq (g : GTPConnector W) (n : Z) (response : string) :
  response_text g n response
  = marker g ++ id_text n ++ " " ++ c_str response ++ terminator g.
Proof.
  unfold response_text. rewrite c_str_head_str, head_str_eq, append_assoc.
  unfold newline_str, terminator. destruct (lizzie_interval_ g <? 0); reflexivity.
Qed.

(** The text the code writes against the text of section 4.7: the same
    while the interval is negative, one line feed more while it is positive. *)
Lemma response_text_against_spec (g : GTPConnector W) (n : Z) (response : string) :
  (lizzie_interval_ g < 0 ->
   response_text g n response = spec_response_text g n (c_str response))
  /\ (0 < lizzie_interval_ g ->
      response_text g n response = spec_response_text g n (c_str response) ++ LF).
Proof.
  rewrite response_text_eq. unfold spec_response_text, terminator.
  split; intros Hl.
  - destruct (Z.ltb_spec (lizzie_interval_ g) 0); [|lia].
    destruct (Z.ltb_spec 0 (lizzie_interval_ g)); [lia | reflexivity].
  - destruct (Z.ltb_spec (lizzie_interval_ g) 0); [lia|].
    destruct (Z.ltb_spec 0 (lizzie_interval_ g)); [|lia].
    rewrite !append_assoc. reflexivity.
Qed.

(** The names the chain handles are the recognized commands of section 6. *)
Lemma handled_names_recognized : handled_names = recognized_commands.
Proof. reflexivity. Qed.

Lemma ExecuteCommand_unfold (command : string) (g : GTPConnector W) :
  ExecuteCommand command g
  = match prologue command g with
    | (tr, Done p g0) =>
        let (tr', o) := answer command p g0 in ((tr ++ tr')%list, o)
    | (tr, Abort f) => (tr, Abort f)
    end.
Proof. reflexivity. Qed.

Lemma prologue_run (command : string) (g : GTPConnector W) :
  prologue command g
  = match ParseCommand command with
    | Ok p =>
        ((log_events g command ++ stop_events g)%list,
         Done p (at_dispatch p g))
    | Throw e => (log_events g command, Abort (Uncaught e))
    end.
Proof.
  unfold prologue, log_events, stop_events, at_dispatch, bind, get, when, try_, modify,
    SendGTPCommand, StopLizzieAnalysis, on_world, emit, abort, ret, bind.
  cbn [world args_ success_handle_ lizzie_interval_ set_args set_success].
  destruct (tree_log_file (world g)); destruct (ParseCommand command) as [p|e];
    cbn [app]; try reflexivity;
    destruct (0 <? lizzie_interval_ g); reflexivity.
Qed.

Lemma answer_run (command : string) (p : Parsed) (g0 g' : GTPConnector W)
    (tr : list Event) (response : string) :
  dispatch command (p_type p) g0 = (tr, Done response g') ->
  answer command p g0
  = ((tr ++ [EvStdout (response_text g' (p_id p) response)])%list,
     Done (negb (String.eqb (p_type p) "quit")) g').
Proof.
  intros Hd. unfold answer, bind. rewrite Hd.
  unfold get, SendGTPCommand, emit, ret. reflexivity.
Qed.

Lemma answer_abort (command : string) (p : Parsed) (g0 : GTPConnector W)
    (tr : list Event) (f : Fault) :
  dispatch command (p_type p) g0 = (tr, Abort f) ->
  answer command p g0 = (tr, Abort f).
Proof. intros Hd. unfold answer, bind. now rewrite Hd. Qed.

(** A run of [ExecuteCommand] whose parse and handler return. *)
Lemma ExecuteCommand_run (command : string) (p : Parsed)
    (g g0 g' : GTPConnector W) (tr0 tr : list Event) (response : string) :
  prologue command g = (tr0, Done p g0) ->
  dispatch command (p_type p) g0 = (tr, Done response g') ->
  ExecuteCommand command g
  = ((tr0 ++ tr ++ [EvStdout (response_text g' (p_id p) response)])%list,
     Done (negb (String.eqb (p_type p) "quit")) g').
Proof.
  intros Hp Hd. rewrite ExecuteCommand_unfold, Hp.
  now rewrite (answer_run _ _ _ _ _ _ Hd).
Qed.

Lemma ExecuteCommand_abort (command : string) (p : Parsed)
    (g g0 : GTPConnector W) (tr0 tr : list Event) (f : Fault) :
  prologue command g = (tr0, Done p g0) ->
  dispatch command (p_type p) g0 = (tr, Abort f) ->
  ExecuteCommand command g = ((tr0 ++ tr)%list, Abort f).
Proof.
  intros Hp Hd. rewrite ExecuteCommand_unfold, Hp.
  now rewrite (answer_abort _ _ _ _ _ Hd).
Qed.

(** What the prologue returns is what the parser returned, and it leaves
    the arguments stored and the flag set. *)
Lemma prologue_done (command : string) (p : Parsed) (g g0 : GTPConnector W)
    (tr0 : list Event) :
  prologue command g = (tr0, Done p g0) ->
  ParseCommand command = Ok p /\ g0 = at_dispatch p g
  /\ args_ g0 = p_args p /\ success_handle_ g0 = true.
Proof.
  rewrite prologue_run. destruct (ParseCommand command) as [p'|e]; [|discriminate].
  intros E. injection E as _ E1 E2. subst p' g0. unfold at_dispatch.
  destruct (0 <? lizzie_interval_ g); repeat split; reflexivity.
Qed.

Lemma at_dispatch_fields (p : Parsed) (g : GTPConnector W) :
  args_ (at_dispatch p g) = p_args p
  /\ success_handle_ (at_dispatch p g) = true
  /\ c_engine_ (at_dispatch p g) = c_engine_ g
  /\ go_ponder_ (at_dispatch p g) = go_ponder_ g
  /\ command_queue_ (at_dispatch p g) = command_queue_ g
  /\ save_log_ (at_dispatch p g) = save_log_ g.
Proof.
  unfold at_dispatch. destruct (0 <? lizzie_interval_ g); repeat split; reflexivity.
Qed.

Lemma args_at_dispatch (p : Parsed) (g : GTPConnector W) :
  args_ (at_dispatch p g) = p_args p.
Proof. apply at_dispatch_fields. Qed.

(** With no streamed analysis on, the prologue leaves the world and the
    interval as they were. *)
Lemma at_dispatch_idle (p : Parsed) (g : GTPConnector W) :
  lizzie_interval_ g <= 0 ->
  at_dispatch p g = set_success true (set_args (p_args p) g).
Proof.
  intros Hl. unfold at_dispatch.
  destruct (Z.ltb_spec 0 (lizzie_interval_ g)); [lia | reflexivity].
Qed.

(** With one on, it stops the search and the interval is -1. *)
Lemma at_dispatch_streaming (p : Parsed) (g : GTPConnector W) :
  0 < lizzie_interval_ g ->
  lizzie_interval_ (at_dispatch p g) = -1
  /\ world (at_dispatch p g) = tree_StopToThink (world g).
Proof.
  intros Hl. unfold at_dispatch.
  destruct (Z.ltb_spec 0 (lizzie_interval_ g)); [split; reflexivity | lia].
Qed.

Lemma prologue_parsed (command : string) (p : Parsed) (g : GTPConnector W) :
  ParseCommand command = Ok p ->
  prologue command g
  = ((log_events g command ++ stop_events g)%list, Done p (at_dispatch p g)).
Proof. intros Hp. now rewrite prologue_run, Hp. Qed.

Lemma ExecuteCommand_parse_throw (command : string) (e : exception)
    (g : GTPConnector W) :
  ParseCommand command = Throw e ->
  ExecuteCommand command g = (log_events g command, Abort (Uncaught e)).
Proof. intros Hp. now rewrite ExecuteCommand_unfold, prologue_run, Hp. Qed.

Lemma FindString_one (str s : string) :
  FindString str s EmptyString EmptyString
  = negb (String.eqb s EmptyString) && contains str s.
Proof.
  unfold FindString. cbn [String.eqb negb andb orb].
  now rewrite !orb_false_r.
Qed.

Lemma dispatch_protocol_version (command type : string) (g : GTPConnector W) :
  contains command "protocol_version" = true ->
  dispatch command type g = ([], Done "2" g).
Proof.
  intros Hc. unfold dispatch. rewrite FindString_one, Hc. reflexivity.
Qed.

(** A name that the chain does not handle, on a line that does not hold
    [protocol_version], reaches the final [else]. *)
Lemma dispatch_unknown (command type : string) (g : GTPConnector W) :
  contains command "protocol_version" = false ->
  ~ In type handled_names ->
  dispatch command type g
  = ([EvStderr ("? unknown command." ++ LF)],
     Done "unknown command." (set_success false g)).
Proof.
  intros Hc Hn. unfold dispatch. rewrite FindString_one, Hc.
  cbn [andb negb String.eqb Ascii.eqb Bool.eqb].
  repeat match goal with
         | |- context [String.eqb type ?s] =>
             destruct (String.eqb_spec type s) as [E|_];
             [exfalso; apply Hn; rewrite E; unfold handled_names;
              cbn [In]; tauto|]
         end.
  reflexivity.
Qed.

Ltac enter_chain Hc :=
  unfold dispatch; rewrite FindString_one, Hc; eval_eqb;
  cbn [andb negb orb]; cbv iota.

Lemma c_str_boardsize_refusal : c_str boardsize_refusal = boardsize_refusal.
Proof.
  unfold boardsize_refusal.
  rewrite c_str_app by reflexivity.
  rewrite c_str_app by apply c_str_to_string.
  reflexivity.
Qed.

Lemma dispatch_boardsize (command a : string) (rest : list string) (n : Z)
    (g : GTPConnector W) :
  contains command "protocol_version" = false ->
  args_ g = a :: rest ->
  stoi a = Ok n ->
  dispatch command "boardsize" g
  = if n =? kBSize then ([], Done EmptyString g)
    else ([EvStderr ("? " ++ boardsize_refusal ++ LF)],
          Done boardsize_refusal (set_success false g)).
Proof.
  intros Hc Ha Hs. enter_chain Hc.
  unfold arg, bind, get, try_, modify, emit, ret.
  rewrite Ha. cbn [nth_error]. rewrite Hs.
  fold boardsize_refusal. rewrite c_str_boardsize_refusal.
  destruct (n =? kBSize); reflexivity.
Qed.

Lemma dispatch_boardsize_no_argument (command : string) (g : GTPConnector W) :
  contains command "protocol_version" = false ->
  args_ g = [] ->
  dispatch command "boardsize" g = ([], Abort PastTheEnd).
Proof.
  intros Hc Ha. enter_chain Hc.
  unfold arg, bind, get, abort. now rewrite Ha.
Qed.

Lemma dispatch_boardsize_throw (command a : string) (rest : list string)
    (e : exception) (g : GTPConnector W) :
  contains command "protocol_version" = false ->
  args_ g = a :: rest ->
  stoi a = Throw e ->
  dispatch command "boardsize" g = ([], Abort (Uncaught e)).
Proof.
  intros Hc Ha Hs. enter_chain Hc.
  unfold arg, bind, get, try_, abort, ret. rewrite Ha. cbn [nth_error].
  now rewrite Hs.
Qed.

Lemma dispatch_komi_no_argument (command : string) (g : GTPConnector W) :
  contains command "protocol_version" = false ->
  args_ g = [] ->
  dispatch command "komi" g = ([], Abort PastTheEnd).
Proof.
  intros Hc Ha. enter_chain Hc.
  unfold arg, bind, get, abort. now rewrite Ha.
Qed.

Lemma dispatch_komi_no_number (command a : string) (rest : list string)
    (g : GTPConnector W) :
  contains command "protocol_version" = false ->
  args_ g = a :: rest ->
  strtod_converts a = false ->
  dispatch command "komi" g = ([], Abort (Uncaught invalid_argument)).
Proof.
  intros Hc Ha Hs. enter_chain Hc.
  unfold arg, bind, get, try_, stod, abort, ret. rewrite Ha. cbn [nth_error].
  now rewrite Hs.
Qed.

Lemma dispatch_time_left_one_argument (command a : string) (g : GTPConnector W) :
  contains command "protocol_version" = false ->
  args_ g = [a] ->
  dispatch command "time_left" g = ([], Abort PastTheEnd).
Proof.
  intros Hc Ha. enter_chain Hc.
  unfold arg, bind, get, abort, ret. rewrite Ha. cbn [nth_error app].
  rewrite Ha. reflexivity.
Qed.

Lemma std_find_hit_In (l : list string) (x : string) :
  std_find_hit l x = true <-> In x l.
Proof.
  induction l as [|y r IH]; simpl; [split; [discriminate | contradiction]|].
  destruct (String.eqb_spec y x) as [->|Hne].
  - split; auto.
  - rewrite IH. split; [auto | intros [E|Hin]; [contradiction | exact Hin]].
Qed.

Lemma dispatch_known_command (command : string) (g : GTPConnector W) :
  contains command "protocol_version" = false ->
  dispatch command "known_command" g
  = ([], Done (match args_ g with
               | a0 :: _ => if std_find_hit kListCommands a0 then "true" else "false"
               | [] => "false"
               end) g).
Proof.
  intros Hc. enter_chain Hc. unfold bind, get, ret.
  destruct (args_ g); reflexivity.
Qed.

Lemma concat_empty_cons (x : string) (l : list string) :
  String.concat EmptyString (x :: l) = x ++ String.concat EmptyString l.
Proof.
  destruct l as [|y r]; cbn [String.concat].
  - now rewrite append_nil_r.
  - reflexivity.
Qed.

Lemma append_commands_eq (l : list string) (response : string) :
  append_commands l response
  = response ++ String.concat EmptyString (map (fun cmd => cmd ++ LF) l).
Proof.
  revert response; induction l as [|cmd r IH]; intros response.
  - cbn [append_commands map String.concat]. now rewrite append_nil_r.
  - cbn [append_commands map]. now rewrite IH, append_assoc, concat_empty_cons.
Qed.

Lemma dispatch_list_commands (command : string) (g : GTPConnector W) :
  contains command "protocol_version" = false ->
  dispatch command "list_commands" g = ([], Done command_listing g).
Proof.
  intros Hc. enter_chain Hc. unfold ret, command_listing.
  now rewrite append_commands_eq.
Qed.

End Runs.

(* ================================================================== *)
(** * The parser (C1)                                                 *)
(* ================================================================== *)

(** C1, as the code has it.  [ParseCommand] splits the line into words at
    white space and scans them in order.  Until a name is found, each word
    has one leading '=' removed; a word left empty is passed over; a word
    left all digits sets the id, a later one replacing an earlier one, and
    [std::stoi] throws when it does not fit an [int]; the first word left
    otherwise is the name.  Every word after the name is an argument, in
    order and as it stands.  So "=7 play B Q4" gives id 7, name play,
    arguments B and Q4, and "genmove w" gives no id (the -1 of line 256),
    name genmove, argument w. *)
Theorem ParseCommand_scans_tokens :
  (forall command : string,
      let toks := tokens command in
      let pre := take_while before_name toks in
      let post := drop_while before_name toks in
      ParseCommand command
      = match collect (map (fun t => stoi (strip_eq t)) (filter carries_id pre)) with
        | Throw e => Throw e
        | Ok ids =>
            Ok {| p_type := match post with
                            | t :: _ => strip_eq t
                            | [] => EmptyString
                            end;
                  p_id := last ids (-1);
                  p_args := tl post |}
        end)
  /\ ParseCommand "=7 play B Q4"
     = Ok {| p_type := "play"; p_id := 7; p_args := ["B"; "Q4"] |}
  /\ frame_of {| p_type := "play"; p_id := 7; p_args := ["B"; "Q4"] |}
     = (Some 7, "play", ["B"; "Q4"])
  /\ ParseCommand "genmove w"
     = Ok {| p_type := "genmove"; p_id := -1; p_args := ["w"] |}
  /\ frame_of {| p_type := "genmove"; p_id := -1; p_args := ["w"] |}
     = (None, "genmove", ["w"]).
Proof.
  split; [|repeat split; reflexivity].
  intros command toks pre post. unfold ParseCommand, Parsed_init.
  apply ParseCommand_loop_scan.
Qed.

(** C1 as stated fails on "1 2 play": the specification takes 1 for the id
    and 2 for the name; the scan takes 2 for the id and play for the name. *)
Lemma ParseCommand_second_number_is_id :
  ParseCommand "1 2 play" = Ok {| p_type := "play"; p_id := 2; p_args := [] |}
  /\ spec_ParseCommand "1 2 play" = (Some 1, "2", ["play"])
  /\ ~ parser_meets_spec_on "1 2 play".
Proof.
  split; [reflexivity|]. split; [reflexivity|].
  intros [p [Hp Hf]]. vm_compute in Hp. injection Hp as <-.
  vm_compute in Hf. discriminate Hf.
Qed.

(** Two more lines on which the scan and section 4.4 part: a lone '='
    before the name, and an id past INT_MAX. *)
Lemma ParseCommand_other_departures :
  ParseCommand "= play" = Ok {| p_type := "play"; p_id := -1; p_args := [] |}
  /\ spec_ParseCommand "= play" = (None, EmptyString, ["play"])
  /\ ParseCommand "2147483648 play" = Throw out_of_range
  /\ ParseCommand "1 =play" = Ok {| p_type := "play"; p_id := 1; p_args := [] |}
  /\ spec_ParseCommand "1 =play" = (Some 1, "=play", []).
Proof. repeat split; reflexivity. Qed.

(* ================================================================== *)
(** * Unknown names (C2) and malformed arguments (C3)                 *)
(* ================================================================== *)

Section Dispatcher.

Context {W : Type} `{Collaborators W}.

(** A name the chain does not handle, on a line that does not contain
    [protocol_version]: the failure response, a line on [stderr], and
    [true] returned. *)
Lemma ExecuteCommand_unknown (command : string) (p : Parsed) (g : GTPConnector W) :
  ParseCommand command = Ok p ->
  ~ In (p_type p) handled_names ->
  contains command "protocol_version" = false ->
  ExecuteCommand command g
  = ((log_events g command ++ stop_events g
        ++ [EvStderr ("? unknown command." ++ LF);
            EvStdout ("?" ++ id_text (p_id p) ++ " unknown command."
                          ++ terminator (at_dispatch p g))])%list,
     Done true (set_success false (at_dispatch p g))).
Proof.
  intros Hp Hn Hc.
  rewrite (ExecuteCommand_run command p g _ _ _ _ _
             (prologue_parsed _ _ _ Hp) (dispatch_unknown _ _ _ Hc Hn)).
  rewrite response_text_eq, <- app_assoc.
  destruct (String.eqb_spec (p_type p) "quit") as [E|_].
  - exfalso. apply Hn. rewrite E. unfold handled_names. cbn [In]. tauto.
  - reflexivity.
Qed.

(** C2: the line "protocol_versions" has a name outside the recognized
    set, and it is answered "= 2": line 158 looks for [protocol_version]
    anywhere in the line where every other branch compares the name. *)
Theorem unknown_name_answered_as_protocol_version (g : GTPConnector W) :
  ParseCommand "protocol_versions"
  = Ok {| p_type := "protocol_versions"; p_id := -1; p_args := [] |}
  /\ ~ In "protocol_versions" handled_names
  /\ ~ In "protocol_versions" recognized_commands
  /\ exists g',
      ExecuteCommand "protocol_versions" g
      = ((log_events g "protocol_versions" ++ stop_events g
            ++ [EvStdout ("= 2" ++ terminator g')])%list,
         Done true g')
      /\ success_handle_ g' = true.
Proof.
  split; [reflexivity|].
  split; [unfold handled_names; cbn [In]; intuition discriminate|].
  split; [unfold recognized_commands; cbn [In]; intuition discriminate|].
  set (p := {| p_type := "protocol_versions"; p_id := -1; p_args := [] |}).
  exists (at_dispatch p g). split; [|apply at_dispatch_fields].
  assert (Hp : ParseCommand "protocol_versions" = Ok p) by reflexivity.
  rewrite (ExecuteCommand_run _ p g _ _ _ _ _
             (prologue_parsed _ _ _ Hp)
             (dispatch_protocol_version "protocol_versions" _ _ eq_refl)).
  rewrite response_text_eq. unfold marker.
  destruct (at_dispatch_fields p g) as (_ & -> & _).
  rewrite <- app_assoc. reflexivity.
Qed.

(** C3: lines on which the run ends in a fault and no response is
    written: an argument read past the end of [args_], and a conversion
    that throws with no handler around it. *)
Theorem ExecuteCommand_aborts_on_malformed_arguments (g : GTPConnector W) :
  ExecuteCommand "boardsize" g
  = ((log_events g "boardsize" ++ stop_events g)%list, Abort PastTheEnd)
  /\ ExecuteCommand "boardsize nineteen" g
     = ((log_events g "boardsize nineteen" ++ stop_events g)%list,
        Abort (Uncaught invalid_argument))
  /\ ExecuteCommand "boardsize 99999999999" g
     = ((log_events g "boardsize 99999999999" ++ stop_events g)%list,
        Abort (Uncaught out_of_range))
  /\ ExecuteCommand "komi" g
     = ((log_events g "komi" ++ stop_events g)%list, Abort PastTheEnd)
  /\ ExecuteCommand "komi high" g
     = ((log_events g "komi high" ++ stop_events g)%list,
        Abort (Uncaught invalid_argument))
  /\ ExecuteCommand "time_left b" g
     = ((log_events g "time_left b" ++ stop_events g)%list, Abort PastTheEnd)
  /\ ExecuteCommand "99999999999 name" g
     = (log_events g "99999999999 name", Abort (Uncaught out_of_range)).
Proof.
  repeat split.
  - set (p := {| p_type := "boardsize"; p_id := -1; p_args := [] |}).
    rewrite (ExecuteCommand_abort "boardsize" p g _ _ _ _
               (prologue_parsed "boardsize" p g eq_refl)
               (dispatch_boardsize_no_argument "boardsize" _ eq_refl (args_at_dispatch p g))).
    now rewrite app_nil_r.
  - set (p := {| p_type := "boardsize"; p_id := -1; p_args := ["nineteen"] |}).
    rewrite (ExecuteCommand_abort "boardsize nineteen" p g _ _ _ _
               (prologue_parsed "boardsize nineteen" p g eq_refl)
               (dispatch_boardsize_throw "boardsize nineteen" "nineteen" [] invalid_argument _
                  eq_refl (args_at_dispatch p g) eq_refl)).
    now rewrite app_nil_r.
  - set (p := {| p_type := "boardsize"; p_id := -1; p_args := ["99999999999"] |}).
    rewrite (ExecuteCommand_abort "boardsize 99999999999" p g _ _ _ _
               (prologue_parsed "boardsize 99999999999" p g eq_refl)
               (dispatch_boardsize_throw "boardsize 99999999999" "99999999999" [] out_of_range _
                  eq_refl (args_at_dispatch p g) eq_refl)).
    now rewrite app_nil_r.
  - set (p := {| p_type := "komi"; p_id := -1; p_args := [] |}).
    rewrite (ExecuteCommand_abort "komi" p g _ _ _ _
               (prologue_parsed "komi" p g eq_refl)
               (dispatch_komi_no_argument "komi" _ eq_refl (args_at_dispatch p g))).
    now rewrite app_nil_r.
  - set (p := {| p_type := "komi"; p_id := -1; p_args := ["high"] |}).
    rewrite (ExecuteCommand_abort "komi high" p g _ _ _ _
               (prologue_parsed "komi high" p g eq_refl)
               (dispatch_komi_no_number "komi high" "high" [] _
                  eq_refl (args_at_dispatch p g) eq_refl)).
    now rewrite app_nil_r.
  - set (p := {| p_type := "time_left"; p_id := -1; p_args := ["b"] |}).
    rewrite (ExecuteCommand_abort "time_left b" p g _ _ _ _
               (prologue_parsed "time_left b" p g eq_refl)
               (dispatch_time_left_one_argument "time_left b" "b" _
                  eq_refl (args_at_dispatch p g))).
    now rewrite app_nil_r.
  - apply ExecuteCommand_parse_throw. reflexivity.
Qed.

(* ================================================================== *)
(** * The framing of responses (C4, C10)                              *)
(* ================================================================== *)

(** A run of [ExecuteCommand] that returns went through a parse and a
    handler that returned. *)
Lemma ExecuteCommand_done_inv (command : string) (g g' : GTPConnector W)
    (trace_ : list Event) (running : bool) :
  ExecuteCommand command g = (trace_, Done running g') ->
  exists p tr0 g0 tr response,
    prologue command g = (tr0, Done p g0)
    /\ dispatch command (p_type p) g0 = (tr, Done response g').
Proof.
  rewrite ExecuteCommand_unfold.
  destruct (prologue command g) as [tr0 [p g0|f]]; [|discriminate].
  destruct (dispatch command (p_type p) g0) as [tr [response g1|f]] eqn:Hd.
  - rewrite (answer_run _ _ _ _ _ _ Hd). intros E. injection E as _ _ <-.
    now exists p, tr0, g0, tr, response.
  - rewrite (answer_abort _ _ _ _ _ Hd). discriminate.
Qed.

(** C4, as the code has it.  The response that ends a run of
    [ExecuteCommand] is: '=' when the handler left the success flag set
    and '?' when it cleared it; the id, if the request had one, right
    after the marker; one space; the body (up to a NUL, since it goes
    through %s); then two line feeds when the interval that the handler
    left is negative, and one line feed otherwise: while the streamed
    analysis is on the blank line is left out, the end of line is not. *)
Theorem response_framing (command : string) (g g0 g' : GTPConnector W)
    (p : Parsed) (tr0 tr : list Event) (response : string) :
  prologue command g = (tr0, Done p g0) ->
  dispatch command (p_type p) g0 = (tr, Done response g') ->
  ExecuteCommand command g
  = ((tr0 ++ tr
        ++ [EvStdout ((if success_handle_ g' then "=" else "?")
                        ++ (if 0 <=? p_id p then to_string (p_id p) else EmptyString)
                        ++ " " ++ c_str response
                        ++ (if lizzie_interval_ g' <? 0 then LF ++ LF else LF))])%list,
     Done (negb (String.eqb (p_type p) "quit")) g').
Proof.
  intros Hp Hd. rewrite (ExecuteCommand_run _ _ _ _ _ _ _ _ Hp Hd).
  now rewrite response_text_eq.
Qed.

(** C10.  What a run does and returns does not depend on the success flag
    it starts with: the flag a handler and the marker see is the one line
    151 sets.  So "name" is answered with '=' whatever came before. *)
Theorem success_flag_reset :
  (forall (command : string) (g : GTPConnector W) (b : bool),
      ExecuteCommand command (set_success b g) = ExecuteCommand command g)
  /\ (forall (command : string) (g g0 : GTPConnector W) (p : Parsed)
             (tr0 : list Event),
         prologue command g = (tr0, Done p g0) -> success_handle_ g0 = true)
  /\ (forall g : GTPConnector W,
         exists g',
           ExecuteCommand "name" (set_success false g)
           = ((log_events g "name" ++ stop_events g
                 ++ [EvStdout ("= AQ" ++ terminator g')])%list,
              Done true g')
           /\ success_handle_ g' = true).
Proof.
  assert (Hreset : forall (command : string) (g : GTPConnector W) (b : bool),
             ExecuteCommand command (set_success b g) = ExecuteCommand command g).
  { intros command g b. rewrite !ExecuteCommand_unfold, !prologue_run.
    reflexivity. }
  split; [exact Hreset|]. split.
  - intros command g g0 p tr0 Hp. now apply prologue_done in Hp.
  - intros g. rewrite Hreset.
    set (p := {| p_type := "name"; p_id := -1; p_args := [] |}).
    exists (at_dispatch p g). split; [|apply at_dispatch_fields].
    assert (Hd : dispatch "name" (p_type p) (at_dispatch p g)
                 = ([], Done "AQ" (at_dispatch p g))) by reflexivity.
    rewrite (ExecuteCommand_run "name" p g _ _ _ _ _
               (prologue_parsed "name" p g eq_refl) Hd).
    rewrite response_text_eq. unfold marker.
    destruct (at_dispatch_fields p g) as (_ & -> & _).
    rewrite <- app_assoc. reflexivity.
Qed.

(* ================================================================== *)
(** * The end of a streamed analysis (C5)                             *)
(* ================================================================== *)

(** C5: a line whose id does not fit an [int].  [ParseCommand] (line 149)
    runs before the test of the interval (lines 153-156) and [std::stoi]
    throws in it, so the run ends there: whatever the interval is, no line
    feed is written to [stdout] and [StopLizzieAnalysis] is not reached. *)
Theorem streaming_not_ended_on_parse_failure (g : GTPConnector W) :
  ParseCommand "4294967296 name" = Throw out_of_range
  /\ ExecuteCommand "4294967296 name" g
     = (log_events g "4294967296 name", Abort (Uncaught out_of_range))
  /\ filter is_stdout (trace (ExecuteCommand "4294967296 name" g)) = []
  /\ ~ In (EvStdout LF) (trace (ExecuteCommand "4294967296 name" g)).
Proof.
  assert (Hp : ParseCommand "4294967296 name" = Throw out_of_range)
    by reflexivity.
  split; [exact Hp|].
  rewrite (ExecuteCommand_parse_throw _ _ g Hp).
  split; [reflexivity|]. unfold trace, log_events. cbn [fst].
  destruct (tree_log_file (world g)); (split; [reflexivity|]); cbn [In].
  - intros [E | F]; [discriminate E | exact F].
  - exact (fun F => F).
Qed.

(** X21.  A line the parser returns a command for, arriving while the
    interval is positive: before its handler runs, one line feed is
    written to [stdout], the search is told to stop and the interval is
    -1; the handler and the response come after, from that state. *)
Theorem streaming_ended_before_dispatch (command : string) (p : Parsed)
    (g : GTPConnector W) :
  0 < lizzie_interval_ g ->
  ParseCommand command = Ok p ->
  exists g0,
    prologue command g = ((log_events g command ++ [EvStdout LF])%list, Done p g0)
    /\ filter is_stdout (trace (prologue command g)) = [EvStdout LF]
    /\ lizzie_interval_ g0 = -1
    /\ world g0 = tree_StopToThink (world g)
    /\ ExecuteCommand command g
       = (((log_events g command ++ [EvStdout LF])
             ++ trace (answer command p g0))%list,
          outcome (answer command p g0)).
Proof.
  intros Hl Hp. exists (at_dispatch p g).
  assert (Hs : stop_events g = [EvStdout LF]).
  { unfold stop_events. destruct (Z.ltb_spec 0 (lizzie_interval_ g)); [reflexivity | lia]. }
  assert (Hpro : prologue command g
                 = ((log_events g command ++ [EvStdout LF])%list,
                    Done p (at_dispatch p g))).
  { rewrite (prologue_parsed _ _ _ Hp). now rewrite Hs. }
  split; [exact Hpro|]. split.
  { rewrite Hpro. unfold trace, log_events. cbn [fst].
    destruct (tree_log_file (world g)); reflexivity. }
  destruct (at_dispatch_streaming p g Hl) as [Hi Hw].
  split; [exact Hi|]. split; [exact Hw|].
  rewrite ExecuteCommand_unfold, Hpro.
  destruct (answer command p (at_dispatch p g)) as [tr' o]. reflexivity.
Qed.

(* ================================================================== *)
(** * boardsize (C7)                                                  *)
(* ================================================================== *)

(** [boardsize] with any arguments, on a line that does not contain
    [protocol_version]: the first argument decides. *)
Lemma ExecuteCommand_boardsize (command a : string) (rest : list string) (n : Z)
    (p : Parsed) (g : GTPConnector W) :
  ParseCommand command = Ok p ->
  p_type p = "boardsize" ->
  p_args p = a :: rest ->
  stoi a = Ok n ->
  contains command "protocol_version" = false ->
  (n = kBSize ->
   ExecuteCommand command g
   = ((log_events g command ++ stop_events g
         ++ [EvStdout ("=" ++ id_text (p_id p) ++ " "
                           ++ terminator (at_dispatch p g))])%list,
      Done true (at_dispatch p g)))
  /\ (n <> kBSize ->
      ExecuteCommand command g
      = ((log_events g command ++ stop_events g
            ++ [EvStderr ("? " ++ boardsize_refusal ++ LF);
                EvStdout ("?" ++ id_text (p_id p) ++ " " ++ boardsize_refusal
                              ++ terminator (at_dispatch p g))])%list,
         Done true (set_success false (at_dispatch p g)))).
Proof.
  intros Hp Ht Ha Hs Hc.
  pose proof (dispatch_boardsize command a rest n (at_dispatch p g) Hc
                (eq_trans (args_at_dispatch p g) Ha) Hs) as Hd.
  rewrite <- Ht in Hd.
  assert (Hq : negb (String.eqb (p_type p) "quit") = true) by now rewrite Ht.
  split.
  - intros ->. rewrite Z.eqb_refl in Hd.
    rewrite (ExecuteCommand_run _ _ _ _ _ _ _ _ (prologue_parsed _ _ _ Hp) Hd).
    rewrite Hq, response_text_eq, <- app_assoc. unfold marker.
    destruct (at_dispatch_fields p g) as (_ & -> & _). reflexivity.
  - intros Hn. apply Z.eqb_neq in Hn. rewrite Hn in Hd.
    rewrite (ExecuteCommand_run _ _ _ _ _ _ _ _ (prologue_parsed _ _ _ Hp) Hd).
    rewrite Hq, response_text_eq, c_str_boardsize_refusal, <- app_assoc.
    reflexivity.
Qed.


(* ================================================================== *)
(** * list_commands and known_command (C8)                            *)
(* ================================================================== *)

(** C8, as the code has it, on lines that do not contain
    [protocol_version].  The body of [list_commands] is every name of
    [kListCommands], in order, each followed by a line feed, and then the
    two characters '=' and ' '.  [known_command] answers "true" when its
    first argument is in [kListCommands], and "false" when it is not or
    when there is none.  Both are successes. *)
Theorem command_list_answers (command : string) (p : Parsed) (g : GTPConnector W) :
  ParseCommand command = Ok p ->
  contains command "protocol_version" = false ->
  (p_type p = "list_commands" ->
   ExecuteCommand command g
   = ((log_events g command ++ stop_events g
         ++ [EvStdout ("=" ++ id_text (p_id p) ++ " " ++ c_str command_listing
                           ++ terminator (at_dispatch p g))])%list,
      Done true (at_dispatch p g)))
  /\ (p_type p = "known_command" ->
      exists body,
        ExecuteCommand command g
        = ((log_events g command ++ stop_events g
              ++ [EvStdout ("=" ++ id_text (p_id p) ++ " " ++ body
                                ++ terminator (at_dispatch p g))])%list,
           Done true (at_dispatch p g))
        /\ (forall name rest, p_args p = name :: rest ->
                              In name kListCommands -> body = "true")
        /\ (forall name rest, p_args p = name :: rest ->
                              ~ In name kListCommands -> body = "false")
        /\ (p_args p = [] -> body = "false")).
Proof.
  intros Hp Hc. split; intros Ht.
  - pose proof (dispatch_list_commands command (at_dispatch p g) Hc) as Hd.
    rewrite <- Ht in Hd.
    rewrite (ExecuteCommand_run _ _ _ _ _ _ _ _ (prologue_parsed _ _ _ Hp) Hd).
    rewrite Ht, response_text_eq, <- app_assoc. unfold marker.
    destruct (at_dispatch_fields p g) as (_ & -> & _). reflexivity.
  - pose proof (dispatch_known_command command (at_dispatch p g) Hc) as Hd.
    rewrite <- Ht, args_at_dispatch in Hd.
    set (body := match p_args p with
                 | a0 :: _ => if std_find_hit kListCommands a0 then "true" else "false"
                 | [] => "false"
                 end) in *.
    exists body. split; [|split; [|split]].
    + rewrite (ExecuteCommand_run _ _ _ _ _ _ _ _ (prologue_parsed _ _ _ Hp) Hd).
      rewrite Ht, response_text_eq, <- app_assoc. unfold marker.
      destruct (at_dispatch_fields p g) as (_ & -> & _).
      replace (c_str body) with body; [reflexivity|].
      unfold body. destruct (p_args p) as [|a0 r]; [reflexivity|].
      destruct (std_find_hit kListCommands a0); reflexivity.
    + intros name rest Ha Hin. unfold body. rewrite Ha.
      apply std_find_hit_In in Hin. now rewrite Hin.
    + intros name rest Ha Hin. unfold body. rewrite Ha.
      destruct (std_find_hit kListCommands name) eqn:E; [|reflexivity].
      apply std_find_hit_In in E. contradiction.
    + intros Ha. unfold body. now rewrite Ha.
Qed.

End Dispatcher.

(* ================================================================== *)
(** * The session loop (C6, C9)                                       *)
(* ================================================================== *)

Section Loop.

Context {W : Type} `{Collaborators W}.

Lemma AllocateGPU_run (g : GTPConnector W) :
  exists pre g1,
    AllocateGPU g = (pre, Done tt g1)
    /\ filter is_search pre = []
    /\ filter is_stdout pre = []
    /\ filter is_log pre = []
    /\ g1 = set_world (world g1) g.
Proof.
  unfold AllocateGPU, bind, get, when, emit, on_world, modify, ret.
  destruct (tree_has_eval_worker (world g)); cbn [negb].
  - exists [], g. repeat split. now destruct g.
  - destruct (negb (save_log_ g) && negb (Options_use_ponder (world g)));
      eexists; eexists; repeat split.
Qed.

Lemma Start_iteration_unfold (g : GTPConnector W) :
  Start_iteration g
  = let (tr, g2) := ponder g in
    match command_queue_ g2 with
    | [] => (tr, Abort FrontOfEmpty)
    | command :: rest =>
        let g3 := set_queue rest g2 in
        let stopping := negb (String.eqb command EmptyString) && start_pondering g in
        let g4 := if stopping then set_world (tree_StopToThink (world g3)) g3 else g3 in
        let g5 := set_world (tree_PrepareToThink (world g4)) g4 in
        let tr' := (tr ++ (if stopping then [EvSleep 10] else []))%list in
        if String.eqb command EmptyString || String.eqb command LF
        then (tr', Done true g5)
        else let (tr'', o) := ExecuteCommand command g5 in ((tr' ++ tr'')%list, o)
    end.
Proof.
  unfold ponder.
  destruct (AllocateGPU_run g) as (pre & g1 & Ha & _).
  unfold Start_iteration, pop_command.
  cbv [bind get emit on_world modify ret abort when].
  destruct (start_pondering g) eqn:Hsp.
  - rewrite Ha. cbn [command_queue_ set_world world lizzie_interval_ app].
    destruct (command_queue_ g1) as [|command rest].
    + now rewrite ?app_nil_r.
    + destruct (String.eqb command EmptyString) eqn:E0;
        destruct (String.eqb command LF) eqn:E1;
        cbn [negb andb orb app];
        try (match goal with
             | |- context [ExecuteCommand ?c ?s] =>
                 destruct (ExecuteCommand c s) as [tr'' o]
             end);
        rewrite ?app_nil_r, <- ?app_assoc; reflexivity.
  - cbn [command_queue_ set_world world lizzie_interval_ app].
    destruct (command_queue_ g) as [|command rest]; [reflexivity|].
    rewrite andb_false_r.
    destruct (String.eqb command EmptyString || String.eqb command LF);
      [reflexivity|].
    match goal with
    | |- context [ExecuteCommand ?c ?s] =>
        destruct (ExecuteCommand c s) as [tr'' o]
    end.
    reflexivity.
Qed.

Lemma ponder_quiet (g : GTPConnector W) :
  filter is_stdout (fst (ponder g)) = []
  /\ filter is_log (fst (ponder g)) = []
  /\ snd (ponder g) = set_world (world (snd (ponder g))) g.
Proof.
  unfold ponder. destruct (start_pondering g); [|repeat split; now destruct g].
  destruct (AllocateGPU_run g) as (pre & g1 & Ha & _ & Ho & Hl & Hg).
  rewrite Ha. cbn [fst snd]. rewrite !filter_app, Ho, Hl.
  repeat split.
  destruct g, g1. cbn in Hg |- *. injection Hg as -> -> -> -> -> -> ->.
  reflexivity.
Qed.

(** C6, as the code has it.  A line that is empty, or is one line feed,
    is dropped: the iteration takes it off the queue, writes nothing to
    [stdout] or to the log, runs no handler (arguments, success flag,
    interval, colour and ponder flag are as before) and leaves [running]
    true. *)
Theorem empty_line_skipped (g : GTPConnector W) (line : string) (q : list string) :
  line = EmptyString \/ line = LF ->
  command_queue_ g = line :: q ->
  exists tr g',
    Start_iteration g = (tr, Done true g')
    /\ filter is_stdout tr = []
    /\ filter is_log tr = []
    /\ command_queue_ g' = q
    /\ args_ g' = args_ g
    /\ success_handle_ g' = success_handle_ g
    /\ lizzie_interval_ g' = lizzie_interval_ g
    /\ go_ponder_ g' = go_ponder_ g
    /\ c_engine_ g' = c_engine_ g.
Proof.
  intros Hline Hq. rewrite Start_iteration_unfold.
  destruct (ponder_quiet g) as (Ho & Hl & Hg).
  destruct (ponder g) as [tr g2]. cbn [fst snd] in Ho, Hl, Hg.
  assert (Hq2 : command_queue_ g2 = line :: q) by (rewrite Hg; exact Hq).
  rewrite Hq2. cbv zeta.
  assert (Hskip : String.eqb line EmptyString || String.eqb line LF = true)
    by (destruct Hline as [-> | ->]; reflexivity).
  rewrite Hskip. eexists; eexists. split; [reflexivity|].
  rewrite !filter_app, Ho, Hl.
  split; [now destruct (negb (String.eqb line EmptyString) && start_pondering g)|].
  split; [now destruct (negb (String.eqb line EmptyString) && start_pondering g)|].
  rewrite Hg.
  destruct (negb (String.eqb line EmptyString) && start_pondering g);
    repeat split; reflexivity.
Qed.


End Loop.

(* ================================================================== *)
(** * Runs on the small engine                                        *)
(* ================================================================== *)

(** A session: an empty line, [name], [quit]. *)
Example Start_session :
  Start 3 (Demo.fresh Demo.idle [EmptyString; "name"; "quit"])
  = ([EvStdout ("= AQ" ++ LF ++ LF);
      EvStderr EmptyString;
      EvStdout ("= " ++ LF ++ LF)],
     Done (Some tt)
          (mkGTP (Demo.stop Demo.idle) kEmpty [] false false [] true (-1))).
Proof. reflexivity. Qed.

(** [response_framing] on three lines: a success with an id, a failure,
    and a response written while the streamed analysis is on. *)
Lemma response_framing_witness :
  ExecuteCommand "=7 name" (Demo.fresh Demo.idle [])
  = ([EvStdout ("=7 AQ" ++ LF ++ LF)], Done true (Demo.fresh Demo.idle []))
  /\ ExecuteCommand "frobnicate" (Demo.fresh Demo.idle [])
     = ([EvStderr ("? unknown command." ++ LF);
         EvStdout ("? unknown command." ++ LF ++ LF)],
        Done true (set_success false (Demo.fresh Demo.idle [])))
  /\ ExecuteCommand "lz-analyze" (Demo.fresh Demo.idle [])
     = ([EvStdout ("= " ++ LF)],
        Done true (set_go_ponder true (set_lizzie 100 (Demo.fresh Demo.idle [])))).
Proof.
  split; [|split].
  - exact (response_framing "=7 name" (Demo.fresh Demo.idle [])
             (Demo.fresh Demo.idle []) (Demo.fresh Demo.idle [])
             {| p_type := "name"; p_id := 7; p_args := [] |} [] [] "AQ"
             eq_refl eq_refl).
  - exact (response_framing "frobnicate" (Demo.fresh Demo.idle [])
             (Demo.fresh Demo.idle [])
             (set_success false (Demo.fresh Demo.idle []))
             {| p_type := "frobnicate"; p_id := -1; p_args := [] |} []
             [EvStderr ("? unknown command." ++ LF)] "unknown command."
             eq_refl eq_refl).
  - exact (response_framing "lz-analyze" (Demo.fresh Demo.idle [])
             (Demo.fresh Demo.idle [])
             (set_go_ponder true (set_lizzie 100 (Demo.fresh Demo.idle [])))
             {| p_type := "lz-analyze"; p_id := -1; p_args := [] |} [] []
             EmptyString eq_refl eq_refl).
Defined.

(** C4 as stated fails: the response to the command that turns the
    streamed analysis on is "= " and a line feed, not "= " alone. *)
Lemma streamed_response_ends_in_newline :
  ~ @framing_as_specified Demo.World Demo.engine.
Proof.
  intros Hf.
  destruct (Hf "lz-analyze" (Demo.fresh Demo.idle [])
              (Demo.fresh Demo.idle [])
              (set_go_ponder true (set_lizzie 100 (Demo.fresh Demo.idle [])))
              {| p_type := "lz-analyze"; p_id := -1; p_args := [] |} [] []
              EmptyString eq_refl eq_refl) as [pre Hpre].
  vm_compute in Hpre.
  change ([EvStdout ("= " ++ LF)] = (pre ++ [EvStdout "= "])%list) in Hpre.
  apply (app_inj_tail []) in Hpre as [_ E]. discriminate E.
Qed.

(** [streaming_ended_before_dispatch] on "name", arriving while the
    interval is 100. *)
Lemma streaming_ended_before_dispatch_witness :
  0 < lizzie_interval_ Demo.streaming
  /\ ParseCommand "name" = Ok {| p_type := "name"; p_id := -1; p_args := [] |}
  /\ exists g0,
      prologue "name" Demo.streaming
      = ([EvStdout LF], Done {| p_type := "name"; p_id := -1; p_args := [] |} g0)
      /\ filter is_stdout (trace (prologue "name" Demo.streaming)) = [EvStdout LF]
      /\ lizzie_interval_ g0 = -1
      /\ world g0 = Demo.stop Demo.idle
      /\ ExecuteCommand "name" Demo.streaming
         = ([EvStdout LF; EvStdout ("= AQ" ++ LF ++ LF)], Done true g0).
Proof.
  split; [reflexivity|]. split; [reflexivity|].
  destruct (streaming_ended_before_dispatch "name"
              {| p_type := "name"; p_id := -1; p_args := [] |}
              Demo.streaming eq_refl eq_refl)
    as (g0 & Hp & Hf & Hi & Hw & He).
  exists g0. repeat split; try assumption.
  rewrite He. injection Hp as <-. reflexivity.
Defined.

(** [empty_line_skipped] on a queue that starts with an empty line. *)
Lemma empty_line_skipped_witness :
  command_queue_ (Demo.fresh Demo.idle [EmptyString; "name"])
  = [EmptyString; "name"]
  /\ exists tr g',
      Start_iteration (Demo.fresh Demo.idle [EmptyString; "name"])
      = (tr, Done true g')
      /\ filter is_stdout tr = []
      /\ filter is_log tr = []
      /\ command_queue_ g' = ["name"]
      /\ args_ g' = []
      /\ success_handle_ g' = true
      /\ lizzie_interval_ g' = -1
      /\ go_ponder_ g' = false
      /\ c_engine_ g' = kEmpty.
Proof.
  split; [reflexivity|].
  exact (empty_line_skipped (Demo.fresh Demo.idle [EmptyString; "name"])
           EmptyString ["name"] (or_introl eq_refl) eq_refl).
Defined.

(** C6 as stated fails on a line of one space: its command name is
    empty, and it is answered as an unknown command. *)
Lemma blank_line_answered :
  ParseCommand " " = Ok {| p_type := EmptyString; p_id := -1; p_args := [] |}
  /\ Start_iteration (Demo.fresh Demo.idle [" "])
     = ([EvStderr ("? unknown command." ++ LF);
         EvStdout ("? unknown command." ++ LF ++ LF)],
        Done true (set_success false (Demo.fresh Demo.idle [])))
  /\ ~ @blank_lines_ignored Demo.World Demo.engine.
Proof.
  split; [reflexivity|]. split; [reflexivity|].
  intros Hb.
  destruct (Hb (Demo.fresh Demo.idle [" "]) " " []
              {| p_type := EmptyString; p_id := -1; p_args := [] |}
              eq_refl eq_refl eq_refl) as (tr & g' & Hrun & Hout).
  vm_compute in Hrun. injection Hrun as <- _.
  discriminate Hout.
Qed.



(** [command_list_answers] on [list_commands] and on [known_command] with
    a name of the list, a name outside it, and no name. *)
Lemma command_list_answers_witness :
  ExecuteCommand "list_commands" (Demo.fresh Demo.idle [])
  = ([EvStdout ("= " ++ String.concat LF recognized_commands ++ LF ++ "= "
                     ++ LF ++ LF)],
     Done true (Demo.fresh Demo.idle []))
  /\ (exists body,
         ExecuteCommand "known_command quit" (Demo.fresh Demo.idle [])
         = ([EvStdout ("= " ++ body ++ LF ++ LF)],
            Done true (set_args ["quit"] (Demo.fresh Demo.idle [])))
         /\ body = "true")
  /\ (exists body,
         ExecuteCommand "known_command resign" (Demo.fresh Demo.idle [])
         = ([EvStdout ("= " ++ body ++ LF ++ LF)],
            Done true (set_args ["resign"] (Demo.fresh Demo.idle [])))
         /\ body = "false").
Proof.
  split; [|split].
  - exact (proj1 (command_list_answers "list_commands"
                    {| p_type := "list_commands"; p_id := -1; p_args := [] |}
                    (Demo.fresh Demo.idle []) eq_refl eq_refl) eq_refl).
  - destruct (proj2 (command_list_answers "known_command quit"
                       {| p_type := "known_command"; p_id := -1; p_args := ["quit"] |}
                       (Demo.fresh Demo.idle []) eq_refl eq_refl) eq_refl)
      as (body & Hrun & Hin & _).
    exists body. split; [exact Hrun|].
    apply (Hin "quit" [] eq_refl). vm_compute. tauto.
  - destruct (proj2 (command_list_answers "known_command resign"
                       {| p_type := "known_command"; p_id := -1; p_args := ["resign"] |}
                       (Demo.fresh Demo.idle []) eq_refl eq_refl) eq_refl)
      as (body & Hrun & _ & Hout & _).
    exists body. split; [exact Hrun|].
    apply (Hout "resign" [] eq_refl). vm_compute. intuition discriminate.
Defined.

(** C8 as stated fails on [list_commands]: the body is not the names
    joined by line feeds; a line feed and "= " follow the last name. *)
Lemma list_commands_trailing_marker :
  ExecuteCommand "list_commands" (Demo.fresh Demo.idle [])
  = ([EvStdout ("= " ++ String.concat LF recognized_commands ++ LF ++ "= "
                     ++ LF ++ LF)],
     Done true (Demo.fresh Demo.idle []))
  /\ ~ @command_list_as_specified Demo.World Demo.engine.
Proof.
  split; [reflexivity|].
  intros [Hlist _].
  destruct (Hlist "list_commands" (Demo.fresh Demo.idle [])
              (Demo.fresh Demo.idle [])
              {| p_type := "list_commands"; p_id := -1; p_args := [] |} []
              eq_refl eq_refl) as (tr & g' & Hd).
  vm_compute in Hd. discriminate Hd.
Qed.

(** The same slip as in C2, seen through [known_command]: asked about
    [protocol_version], a name of the list, the connector answers "2". *)
Lemma known_command_protocol_version :
  In "protocol_version" recognized_commands
  /\ ExecuteCommand "known_command protocol_version" (Demo.fresh Demo.idle [])
     = ([EvStdout ("= 2" ++ LF ++ LF)],
        Done true (set_args ["protocol_version"] (Demo.fresh Demo.idle []))).
Proof. split; [left; reflexivity | reflexivity]. Qed.


(** The other two limits: 100 with time to spare, 86400 with the lizzie
    option. *)
Example ponder_budget_other_limits :
  trace (Start_iteration (Demo.pondering Demo.early_game ["play b q4"]))
  = [EvSearch 100%float true (-1); EvSleep 10; EvStdout ("= " ++ LF ++ LF)]
  /\ trace (Start_iteration (Demo.pondering Demo.analysis ["play b q4"]))
     = [EvSearch 86400%float true (-1); EvSleep 10; EvStdout ("= " ++ LF ++ LF)].
Proof. split; reflexivity. Qed.

(* ================================================================== *)
(** * Further properties: strings and the parser                      *)
(* ================================================================== *)

Lemma prefix_occurs (p s : string) :
  prefix p s = true <-> exists b, s = p ++ b.
Proof.
  revert s; induction p as [|x p IH]; intros s.
  - split; [intros _; now exists s | intros _; now destruct s].
  - destruct s as [|y s]; simpl.
    + split; [discriminate | intros [b E]; discriminate E].
    + destruct (ascii_dec x y) as [->|Hne].
      * rewrite IH. split; intros [b E]; exists b.
        -- now rewrite E.
        -- now injection E.
      * split; [discriminate | intros [b E]; injection E as E1 _; congruence].
Qed.

Lemma contains_occurs (str s : string) :
  contains str s = true <-> occurs s str.
Proof.
  unfold occurs. split.
  - induction str as [|x str IH]; cbn [contains].
    + destruct (prefix s EmptyString) eqn:Hp; [|discriminate].
      intros _. apply prefix_occurs in Hp as [b E]. now exists EmptyString, b.
    + destruct (prefix s (String x str)) eqn:Hp.
      * intros _. apply prefix_occurs in Hp as [b E]. now exists EmptyString, b.
      * intros Hc. destruct (IH Hc) as (a & b & E).
        exists (String x a), b. simpl. now rewrite E.
  - intros (a & b & E). subst str.
    induction a as [|x a IH].
    + assert (Hp : prefix s (s ++ b) = true) by (apply prefix_occurs; now exists b).
      simpl. destruct (s ++ b); cbn [contains]; now rewrite Hp.
    + cbn [append contains]. fold (append a (s ++ b)).
      destruct (prefix s (String x (a ++ s ++ b))); [reflexivity | exact IH].
Qed.

(** X1.  [FindString] holds exactly when one of its patterns that is not
    empty occurs in the string: an empty pattern, the default of the
    second and the third, never counts, although [find] locates it. *)
Theorem FindString_occurs (str s1 s2 s3 : string) :
  FindString str s1 s2 s3 = true
  <-> (s1 <> EmptyString /\ occurs s1 str)
      \/ (s2 <> EmptyString /\ occurs s2 str)
      \/ (s3 <> EmptyString /\ occurs s3 str).
Proof.
  unfold FindString. cbn [orb].
  assert (Hone : forall s, negb (String.eqb s EmptyString) && contains str s = true
                           <-> s <> EmptyString /\ occurs s str).
  { intros s. rewrite andb_true_iff, negb_true_iff, contains_occurs.
    destruct (String.eqb_spec s EmptyString) as [->|Hne]; split.
    - intros [E _]. discriminate E.
    - intros [E _]. now contradiction E.
    - intros [_ Ho]. now split.
    - intros [_ Ho]. now split. }
  rewrite !orb_true_iff, !Hone. tauto.
Qed.

Lemma drop_while_head {A : Type} (f : A -> bool) (l : list A) (x : A) (r : list A) :
  drop_while f l = x :: r -> f x = false.
Proof.
  induction l as [|y l IH]; simpl; [discriminate|].
  destruct (f y) eqn:E; [exact IH|].
  intros H. injection H as <- _. exact E.
Qed.

Lemma drop_while_incl {A : Type} (f : A -> bool) (l : list A) (x : A) :
  In x (drop_while f l) -> In x l.
Proof.
  induction l as [|y l IH]; simpl; [auto|].
  destruct (f y); [intros H; right; auto | simpl; auto].
Qed.

Lemma take_while_incl {A : Type} (f : A -> bool) (l : list A) (x : A) :
  In x (take_while f l) -> In x l.
Proof.
  induction l as [|y l IH]; simpl; [auto|].
  destruct (f y); simpl; [intros [E|H]; auto | contradiction].
Qed.

Lemma no_space_strip_eq (t : string) : no_space t = true -> no_space (strip_eq t) = true.
Proof.
  destruct t as [|x r]; [auto|]. rewrite strip_eq_cons.
  destruct (Ascii.eqb x "="); [|auto].
  unfold no_space. simpl. intros H. now apply andb_prop in H.
Qed.

(** The conversions of the id words: every value is that of a word of
    digits, so it lies in [0, INT_MAX]. *)
Lemma collect_ids_range (l : list string) (ids : list Z) :
  Forall (fun t => carries_id t = true) l ->
  collect (map (fun t => stoi (strip_eq t)) l) = Ok ids ->
  Forall (fun n => 0 <= n <= INT_MAX) ids.
Proof.
  revert ids; induction l as [|t l IH]; intros ids Hl; cbn [map collect].
  - intros E. injection E as <-. constructor.
  - inversion Hl as [|? ? Ht Hl']; subst.
    unfold carries_id in Ht. apply andb_prop in Ht as [Hne Hd].
    apply negb_true_iff in Hne.
    assert (Hne' : strip_eq t <> EmptyString)
      by (intros E; rewrite E in Hne; discriminate Hne).
    rewrite (stoi_digits _ Hne' Hd).
    destruct (Z.leb_spec (decimal (strip_eq t)) INT_MAX) as [Hle|]; [|discriminate].
    destruct (collect _) as [ns|e] eqn:Hc; [|discriminate].
    intros E. injection E as <-. constructor.
    + split; [apply read_digits_nonneg; lia | exact Hle].
    + now apply IH.
Qed.

Lemma last_in (ids : list Z) (d : Z) : ids <> [] -> In (last ids d) ids.
Proof.
  induction ids as [|n r IH]; [contradiction|]. intros _.
  destruct r as [|m r']; [now left|]. right.
  change (last (n :: m :: r') d) with (last (m :: r') d).
  apply IH. discriminate.
Qed.

(** X2.  What [ParseCommand] returns is well formed: the id is -1 or lies
    between 0 and INT_MAX; the name holds no white space and is not a
    number; every argument is a non-empty word without white space; and
    there are arguments only when there is a name. *)
Theorem ParseCommand_well_formed (command : string) (p : Parsed) :
  ParseCommand command = Ok p ->
  (p_id p = -1 \/ 0 <= p_id p <= INT_MAX)
  /\ no_space (p_type p) = true
  /\ (p_type p = EmptyString \/ all_of isdigit (p_type p) = false)
  /\ Forall (fun a => a <> EmptyString /\ no_space a = true) (p_args p)
  /\ (p_type p = EmptyString -> p_args p = []).
Proof.
  unfold ParseCommand, Parsed_init. rewrite ParseCommand_loop_scan.
  pose proof (tokens_shape command) as Hshape. rewrite Forall_forall in Hshape.
  destruct (collect _) as [ids|e] eqn:Hc; [|discriminate].
  intros E. injection E as <-. cbn [p_id p_type p_args].
  split; [|split; [|split; [|split]]].
  - destruct ids as [|n r]; [now left|]. right.
    assert (Hr : Forall (fun n => 0 <= n <= INT_MAX) (n :: r)).
    { apply (collect_ids_range _ _ (proj2 (Forall_forall _ _)
               (fun t Ht => proj2 (proj1 (filter_In _ _ _) Ht))) Hc). }
    rewrite Forall_forall in Hr. apply Hr. apply last_in. discriminate.
  - destruct (drop_while before_name (tokens command)) as [|t post] eqn:Hd;
      [reflexivity|].
    apply no_space_strip_eq, Hshape, (drop_while_incl before_name).
    rewrite Hd. now left.
  - destruct (drop_while before_name (tokens command)) as [|t post] eqn:Hd;
      [now left|].
    right. exact (drop_while_head _ _ _ _ Hd).
  - apply Forall_forall. intros a Ha. apply Hshape, (drop_while_incl before_name).
    destruct (drop_while before_name (tokens command)) as [|t post];
      [contradiction | now right].
  - destruct (drop_while before_name (tokens command)) as [|t post] eqn:Hd;
      [reflexivity|].
    intros E. pose proof (drop_while_head _ _ _ _ Hd) as Hb.
    unfold before_name in Hb. rewrite E in Hb. discriminate Hb.
Qed.

Lemma ParseCommand_well_formed_witness :
  ParseCommand "=12 play  b q4" = Ok {| p_type := "play"; p_id := 12; p_args := ["b"; "q4"] |}
  /\ ((12 = -1 \/ 0 <= 12 <= INT_MAX)
      /\ no_space "play" = true
      /\ ("play" = EmptyString \/ all_of isdigit "play" = false)
      /\ Forall (fun a => a <> EmptyString /\ no_space a = true) ["b"; "q4"]
      /\ ("play" = EmptyString -> ["b"; "q4"] = [])).
Proof.
  split; [reflexivity|].
  exact (ParseCommand_well_formed "=12 play  b q4"
           {| p_type := "play"; p_id := 12; p_args := ["b"; "q4"] |} eq_refl).
Defined.

Lemma collect_throw (l : list (result Z)) (e : exception) :
  collect l = Throw e -> In (Throw e) l.
Proof.
  induction l as [|[n|e'] r IH]; cbn [collect]; [discriminate| |].
  - destruct (collect r); [discriminate|].
    intros E. right. now apply IH.
  - intros E. injection E as ->. now left.
Qed.

(** X3.  [ParseCommand] throws only [std::out_of_range], and exactly when
    one of the words before the name is a number above INT_MAX. *)
Theorem ParseCommand_throws (command : string) (e : exception) :
  ParseCommand command = Throw e
  <-> e = out_of_range
      /\ exists t, In t (take_while before_name (tokens command))
                   /\ carries_id t = true
                   /\ INT_MAX < decimal (strip_eq t).
Proof.
  unfold ParseCommand, Parsed_init. rewrite ParseCommand_loop_scan.
  set (pre := take_while before_name (tokens command)).
  assert (Hstoi : forall t, carries_id t = true ->
            stoi (strip_eq t)
            = if decimal (strip_eq t) <=? INT_MAX
              then Ok (decimal (strip_eq t)) else Throw out_of_range).
  { intros t Ht. unfold carries_id in Ht. apply andb_prop in Ht as [Hne Hd].
    apply stoi_digits; [|exact Hd].
    intros E. rewrite E in Hne. discriminate Hne. }
  split.
  - destruct (collect _) as [ids|e'] eqn:Hc; [discriminate|].
    intros E. injection E as ->.
    apply collect_throw, in_map_iff in Hc as (t & Ht & Hin).
    apply filter_In in Hin as [Hin Hcar].
    rewrite (Hstoi t Hcar) in Ht.
    destruct (Z.leb_spec (decimal (strip_eq t)) INT_MAX); [discriminate|].
    injection Ht as <-. split; [reflexivity|]. now exists t.
  - intros [-> (t & Hin & Hcar & Hbig)].
    destruct (collect _) as [ids|e'] eqn:Hc.
    + exfalso.
      assert (Hin' : In (stoi (strip_eq t))
                        (map (fun t => stoi (strip_eq t)) (filter carries_id pre))).
      { apply (in_map (fun t => stoi (strip_eq t))), filter_In. now split. }
      rewrite (Hstoi t Hcar) in Hin'.
      destruct (Z.leb_spec (decimal (strip_eq t)) INT_MAX); [lia|].
      clear - Hc Hin'. revert ids Hc.
      induction (map (fun t => stoi (strip_eq t)) (filter carries_id pre))
        as [|[n|e'] r IH]; intros ids Hc; [contradiction| |discriminate Hc].
      cbn [collect] in Hc. destruct Hin' as [E|Hin']; [discriminate E|].
      destruct (collect r) as [ns|]; [|discriminate Hc].
      exact (IH Hin' ns eq_refl).
    + apply collect_throw, in_map_iff in Hc as (u & Hu & Hin').
      apply filter_In in Hin' as [_ Hcar'].
      rewrite (Hstoi u Hcar') in Hu.
      destruct (decimal (strip_eq u) <=? INT_MAX); [discriminate|].
      now injection Hu as <-.
Qed.

(** ** Words and lines *)

Lemma words_app (c : ascii) (a b cur : string) :
  isspace c = true ->
  words cur (a ++ String c b) = (words cur a ++ tokens b)%list.
Proof.
  intros Hc. revert cur; induction a as [|x a IH]; intros cur; cbn [append words].
  - rewrite Hc. unfold tokens. now destruct (String.eqb cur EmptyString).
  - destruct (isspace x).
    + destruct (String.eqb cur EmptyString); [apply IH|].
      cbn [app]. now rewrite IH.
    + apply IH.
Qed.

Lemma tokens_app (c : ascii) (a b : string) :
  isspace c = true ->
  tokens (a ++ String c b) = (tokens a ++ tokens b)%list.
Proof. apply words_app. Qed.

Lemma words_word (w s cur : string) :
  no_space w = true -> words cur (w ++ s) = words (cur ++ w) s.
Proof.
  revert cur; induction w as [|x w IH]; intros cur Hw; cbn [append].
  - now rewrite append_nil_r.
  - unfold no_space in Hw. cbn [all_of] in Hw.
    apply andb_prop in Hw as [Hx Hw]. apply negb_true_iff in Hx.
    cbn [words]. rewrite Hx, (IH _ Hw), append_snoc. reflexivity.
Qed.

Lemma tokens_word (w : string) : is_word w = true -> tokens w = [w].
Proof.
  unfold is_word, tokens. intros H. apply andb_prop in H as [Hne Hw].
  rewrite <- (append_nil_r w) at 1. rewrite (words_word _ _ _ Hw).
  cbn [append words]. apply negb_true_iff in Hne. now rewrite Hne.
Qed.

Lemma tokens_concat (ws : list string) :
  Forall (fun w => is_word w = true) ws ->
  tokens (String.concat " " ws) = ws.
Proof.
  induction ws as [|w r IH]; intros Hws; [reflexivity|].
  inversion Hws as [|? ? Hw Hr]; subst.
  destruct r as [|w' r'].
  - cbn [String.concat]. now apply tokens_word.
  - change (String.concat " " (w :: w' :: r'))
      with (w ++ String " " (String.concat " " (w' :: r'))).
    rewrite tokens_app by reflexivity.
    now rewrite (tokens_word _ Hw), (IH Hr).
Qed.

(** X4.  White space only separates: a white-space character before or
    after the line, or doubled between two words, changes nothing, and
    one white-space character (a tab, a carriage return) separates as
    well as another. *)
Theorem ParseCommand_white_space (c c' : ascii) (s a b : string) :
  isspace c = true ->
  isspace c' = true ->
  ParseCommand (String c s) = ParseCommand s
  /\ ParseCommand (s ++ String c EmptyString) = ParseCommand s
  /\ ParseCommand (a ++ String c (String c' b)) = ParseCommand (a ++ String c b)
  /\ ParseCommand (a ++ String c b) = ParseCommand (a ++ String c' b).
Proof.
  intros Hc Hc'. unfold ParseCommand.
  assert (Hlead : forall x t, isspace x = true -> tokens (String x t) = tokens t).
  { intros x t Hx. exact (tokens_app x EmptyString t Hx). }
  repeat split.
  - now rewrite (Hlead c s Hc).
  - rewrite (tokens_app c s EmptyString Hc). cbn [tokens words String.eqb].
    now rewrite app_nil_r.
  - now rewrite !(tokens_app c a _ Hc), (Hlead c' b Hc').
  - now rewrite (tokens_app c a b Hc), (tokens_app c' a b Hc').
Qed.

Lemma ParseCommand_white_space_witness :
  isspace "013" = true
  /\ isspace "009" = true
  /\ (ParseCommand (String "013" "name") = ParseCommand "name"
      /\ ParseCommand ("name" ++ String "013" EmptyString) = ParseCommand "name"
      /\ ParseCommand ("play" ++ String "013" (String "009" "b q4"))
         = ParseCommand ("play" ++ String "013" "b q4")
      /\ ParseCommand ("play" ++ String "013" "b q4")
         = ParseCommand ("play" ++ String "009" "b q4")).
Proof.
  split; [reflexivity|]. split; [reflexivity|].
  exact (ParseCommand_white_space "013" "009" "name" "play" "b q4" eq_refl eq_refl).
Defined.

(** ** Numbers printed and read back *)

Ltac eval_digit :=
  repeat match goal with
         | |- context [isdigit ?c] =>
             let v := eval vm_compute in (isdigit c) in
             change (isdigit c) with v
         | |- context [digit_value ?c] =>
             let v := eval vm_compute in (digit_value c) in
             change (digit_value c) with v
         end;
  cbv iota.

Lemma read_uint_acc (d : Decimal.uint) (p : positive) (b : bool) :
  fst (read_digits (Z.pos p) b (NilEmpty.string_of_uint d))
  = Z.pos (Pos.of_uint_acc d p).
Proof.
  revert p b; induction d; intros p b;
    cbn [NilEmpty.string_of_uint read_digits Pos.of_uint_acc]; [reflexivity|..];
    eval_digit;
    match goal with
    | |- fst (read_digits ?acc _ _) = Z.pos (Pos.of_uint_acc _ ?q) =>
        replace acc with (Z.pos q) by lia
    end;
    apply IHd.
Qed.

Lemma read_uint (d : Decimal.uint) (b : bool) :
  fst (read_digits 0 b (NilEmpty.string_of_uint d)) = Z.of_N (Pos.of_uint d).
Proof.
  revert b; induction d; intros b;
    cbn [NilEmpty.string_of_uint read_digits Pos.of_uint]; [reflexivity|..];
    eval_digit; cbn [Z.mul Z.add Z.of_N]; try apply IHd; apply read_uint_acc.
Qed.

Lemma uint_digits (d : Decimal.uint) :
  all_of isdigit (NilEmpty.string_of_uint d) = true.
Proof. induction d; cbn [NilEmpty.string_of_uint all_of]; eval_digit; auto. Qed.

Lemma to_string_digits (n : Z) :
  0 <= n ->
  all_of isdigit (to_string n) = true /\ to_string n <> EmptyString.
Proof.
  intros Hn. unfold to_string. destruct n as [|p|p]; [split; [reflexivity | discriminate]| |lia].
  cbn [Z.to_int NilEmpty.string_of_int]. split; [apply uint_digits|].
  pose proof (Unsigned.to_uint_nonnil p) as Hnil.
  destruct (Pos.to_uint p); [contradiction|..]; discriminate.
Qed.

Lemma decimal_to_string (n : Z) : 0 <= n -> decimal (to_string n) = n.
Proof.
  intros Hn. unfold decimal, to_string. destruct n as [|p|p]; [reflexivity| |lia].
  cbn [Z.to_int NilEmpty.string_of_int].
  now rewrite read_uint, Unsigned.of_to.
Qed.

(** Reading back what [std::to_string] printed. *)
Lemma stoi_to_string (n : Z) : 0 <= n <= INT_MAX -> stoi (to_string n) = Ok n.
Proof.
  intros [Hlo Hhi]. destruct (to_string_digits n Hlo) as [Hd Hne].
  rewrite (stoi_digits _ Hne Hd), (decimal_to_string n Hlo).
  apply Z.leb_le in Hhi. now rewrite Hhi.
Qed.

Lemma digits_no_space (s : string) : all_of isdigit s = true -> no_space s = true.
Proof.
  unfold no_space. induction s as [|x s IH]; cbn [all_of]; [auto|].
  intros H. apply andb_prop in H as [Hx Hs].
  now rewrite (isdigit_not_space x Hx), (IH Hs).
Qed.

Lemma digits_no_eq_prefix (s : string) : all_of isdigit s = true -> prefix "=" s = false.
Proof.
  destruct s as [|x s]; [reflexivity|]. cbn [all_of]. intros H.
  apply andb_prop in H as [Hx _]. cbn [prefix].
  destruct (ascii_dec "=" x) as [<-|]; [discriminate Hx | reflexivity].
Qed.

(** X5.  A line written as id, name and arguments with one space between
    them is read back as written: the id when it lies in [0, INT_MAX],
    -1 when there is none, the name, and the arguments in order. *)
Theorem ParseCommand_command_line (id : option Z) (name : string)
    (args : list string) :
  is_name name = true ->
  Forall (fun a => is_word a = true) args ->
  (forall n, id = Some n -> 0 <= n <= INT_MAX) ->
  ParseCommand (command_line id name args)
  = Ok {| p_type := name;
          p_id := match id with Some n => n | None => -1 end;
          p_args := args |}.
Proof.
  intros Hname Hargs Hid. unfold is_name in Hname.
  apply andb_prop in Hname as [Hname Hnd]. apply andb_prop in Hname as [Hw Hpre].
  apply negb_true_iff in Hnd. apply negb_true_iff in Hpre.
  assert (Hne : String.eqb name EmptyString = false).
  { unfold is_word in Hw. apply andb_prop in Hw as [Hw _].
    now apply negb_true_iff in Hw. }
  assert (Hloop : forall k,
             ParseCommand_loop (name :: args)
               {| p_type := EmptyString; p_id := k; p_args := [] |}
             = Ok {| p_type := name; p_id := k; p_args := args |}).
  { intros k. cbn [ParseCommand_loop]. unfold ParseCommand_body.
    cbn [p_type p_id p_args]. change (String.eqb EmptyString EmptyString) with true.
    cbv iota. rewrite (strip_eq_no_prefix name Hpre), Hne, Hnd.
    rewrite ParseCommand_loop_named
      by (cbn [p_type]; intros E; rewrite E in Hne; discriminate Hne).
    reflexivity. }
  unfold ParseCommand, command_line, Parsed_init.
  destruct id as [n|].
  - destruct (Hid n eq_refl) as [Hlo Hhi].
    destruct (to_string_digits n Hlo) as [Hd Hnn].
    rewrite tokens_concat.
    + cbn [app ParseCommand_loop]. unfold ParseCommand_body.
      cbn [p_type p_id p_args]. change (String.eqb EmptyString EmptyString) with true.
      cbv iota. rewrite (strip_eq_no_prefix _ (digits_no_eq_prefix _ Hd)).
      destruct (String.eqb_spec (to_string n) EmptyString) as [E|_]; [contradiction|].
      rewrite Hd, (stoi_to_string n (conj Hlo Hhi)). apply Hloop.
    + cbn [app]. constructor; [|constructor; assumption].
      unfold is_word. rewrite (digits_no_space _ Hd).
      destruct (String.eqb_spec (to_string n) EmptyString) as [E|_];
        [contradiction | reflexivity].
  - rewrite tokens_concat by (cbn [app]; constructor; assumption).
    apply Hloop.
Qed.

Lemma ParseCommand_command_line_witness :
  is_name "play" = true
  /\ Forall (fun a => is_word a = true) ["b"; "q4"]
  /\ ParseCommand (command_line (Some 7) "play" ["b"; "q4"])
     = Ok {| p_type := "play"; p_id := 7; p_args := ["b"; "q4"] |}.
Proof.
  split; [reflexivity|].
  assert (Hargs : Forall (fun a => is_word a = true) ["b"; "q4"])
    by (repeat constructor).
  split; [exact Hargs|].
  refine (ParseCommand_command_line (Some 7) "play" ["b"; "q4"] eq_refl Hargs _).
  intros n E. injection E as <-. unfold INT_MAX. lia.
Defined.

Lemma read_digits_app (d junk : string) (acc : Z) (seen : bool) :
  all_of isdigit d = true ->
  leading_digit junk = false ->
  read_digits acc seen (d ++ junk)
  = (fst (read_digits acc seen d), snd (read_digits acc seen d)).
Proof.
  intros Hd Hj. revert acc seen; induction d as [|x d IH]; intros acc seen;
    cbn [append read_digits all_of] in *.
  - destruct junk as [|c r]; [reflexivity|]. cbn [leading_digit] in Hj.
    cbn [read_digits]. now rewrite Hj.
  - apply andb_prop in Hd as [Hx Hd]. rewrite Hx. now apply IH.
Qed.

(** [std::stoi] reads the leading number and ignores what follows it. *)
Lemma stoi_leading (n : Z) (junk : string) :
  0 <= n <= INT_MAX ->
  leading_digit junk = false ->
  stoi (to_string n ++ junk) = Ok n.
Proof.
  intros Hn Hj. pose proof (stoi_to_string n Hn) as Hs.
  destruct (to_string_digits n (proj1 Hn)) as [Hd Hne].
  destruct (to_string n) as [|c r] eqn:E; [contradiction|].
  cbn [all_of] in Hd. pose proof Hd as Hd'. apply andb_prop in Hd' as [Hc _].
  pose proof (isdigit_not_space c Hc) as Hsp.
  destruct (isdigit_not_sign c Hc) as [Hm Hp].
  unfold stoi in Hs |- *. cbn [append skipws] in Hs |- *.
  rewrite Hsp, Hm, Hp in Hs. rewrite Hsp, Hm, Hp.
  change (String c (r ++ junk)) with (String c r ++ junk).
  rewrite (read_digits_app (String c r) junk 0 false Hd Hj).
  destruct (read_digits 0 false (String c r)) as [v seen]. exact Hs.
Qed.

(* ================================================================== *)
(** * Further properties: the dispatcher                              *)
(* ================================================================== *)

Section MoreDispatcher.

Context {W : Type} `{Collaborators W}.

(** X6.  [boardsize] reads the number its first argument starts with and
    nothing else: an argument that goes on after the supported size with
    something that is not a digit, and any further arguments, are
    accepted like the size itself. *)
Theorem boardsize_reads_leading_number (command junk : string)
    (rest : list string) (p : Parsed) (g : GTPConnector W) :
  ParseCommand command = Ok p ->
  p_type p = "boardsize" ->
  p_args p = (to_string kBSize ++ junk) :: rest ->
  0 <= kBSize <= INT_MAX ->
  leading_digit junk = false ->
  contains command "protocol_version" = false ->
  ExecuteCommand command g
  = ((log_events g command ++ stop_events g
        ++ [EvStdout ("=" ++ id_text (p_id p) ++ " "
                          ++ terminator (at_dispatch p g))])%list,
     Done true (at_dispatch p g)).
Proof.
  intros Hp Ht Ha Hk Hj Hc.
  exact (proj1 (ExecuteCommand_boardsize command _ rest kBSize p g Hp Ht Ha
                  (stoi_leading kBSize junk Hk Hj) Hc) eq_refl).
Qed.

(** X7.  A run of [ExecuteCommand] that returns, returns [false] exactly
    when the name the parser found is [quit]: the return value does not
    depend on which branch of the chain answered. *)
Theorem ExecuteCommand_return_value (command : string) (g g' : GTPConnector W)
    (events : list Event) (running : bool) :
  ExecuteCommand command g = (events, Done running g') ->
  exists p,
    ParseCommand command = Ok p
    /\ running = negb (String.eqb (p_type p) "quit").
Proof.
  intros Hrun.
  destruct (ExecuteCommand_done_inv _ _ _ _ _ Hrun)
    as (p & tr0 & g0 & tr & response & Hp & Hd).
  exists p. split; [now apply prologue_done in Hp|].
  rewrite (ExecuteCommand_run _ _ _ _ _ _ _ _ Hp Hd) in Hrun.
  injection Hrun as _ <-. reflexivity.
Qed.

Ltac chain_at Hc :=
  unfold dispatch; rewrite FindString_one, Hc; eval_eqb;
  cbn [andb negb orb]; cbv iota.

Lemma PrintFinalResult_run (g : GTPConnector W) :
  PrintFinalResult g
  = let '(s, owner_map, w') := tree_FinalScore (world g) in
    ((EvStderr owner_map
        :: (if tree_log_file (world g) then [EvLog owner_map] else []))%list,
     Done (if (s =? 0)%float then "0"
           else (if (0 <? s)%float then "B+" else "W+") ++ fixed1 (abs s))
          (set_world w' g)).
Proof.
  unfold PrintFinalResult, bind, get, on_world, modify, emit, when, ret.
  destruct (tree_FinalScore (world g)) as [[s owner_map] w'].
  cbn [world set_world].
  destruct (tree_log_file (world g)); destruct (s =? 0)%float; reflexivity.
Qed.

Lemma dispatch_quit (command : string) (g0 : GTPConnector W)
    (score : float) (owner_map : string) (w' : W) :
  contains command "protocol_version" = false ->
  tree_FinalScore (tree_StopToThink (world g0)) = (score, owner_map, w') ->
  dispatch command "quit" g0
  = ((EvStderr owner_map
        :: (if tree_log_file (tree_StopToThink (world g0))
            then [EvLog owner_map] else []))%list,
     Done EmptyString (set_world w' (set_lizzie (-1) g0))).
Proof.
  intros Hc Hs. chain_at Hc.
  unfold StopLizzieAnalysis, bind, on_world, modify, ret.
  rewrite PrintFinalResult_run. cbn [world set_world set_lizzie].
  rewrite Hs. cbn [app]. rewrite app_nil_r. reflexivity.
Qed.

(** X8.  [quit], on a line that does not contain [protocol_version]:
    the search is told to stop and the interval is set to -1 before the
    response, so the response is always "=", the id, a space and a blank
    line, whatever the interval was; the final score goes to [stderr]
    and to the log, never into the response; the run returns [false]. *)
Theorem quit_answer (command : string) (p : Parsed) (g : GTPConnector W)
    (score : float) (owner_map : string) (w' : W) :
  ParseCommand command = Ok p ->
  p_type p = "quit" ->
  contains command "protocol_version" = false ->
  tree_FinalScore (tree_StopToThink (world (at_dispatch p g)))
  = (score, owner_map, w') ->
  ExecuteCommand command g
  = ((log_events g command ++ stop_events g
        ++ EvStderr owner_map
        :: (if tree_log_file (tree_StopToThink (world (at_dispatch p g)))
            then [EvLog owner_map] else [])
        ++ [EvStdout ("=" ++ id_text (p_id p) ++ " " ++ LF ++ LF)])%list,
     Done false (set_world w' (set_lizzie (-1) (at_dispatch p g)))).
Proof.
  intros Hp Ht Hc Hs.
  pose proof (dispatch_quit command (at_dispatch p g) score owner_map w' Hc Hs)
    as Hd.
  rewrite <- Ht in Hd at 1.
  rewrite (ExecuteCommand_run _ _ _ _ _ _ _ _ (prologue_parsed _ _ _ Hp) Hd).
  rewrite Ht, response_text_eq. unfold marker, terminator.
  cbn [success_handle_ lizzie_interval_ set_world set_lizzie].
  destruct (at_dispatch_fields p g) as (_ & -> & _).
  rewrite <- !app_assoc. reflexivity.
Qed.

(** X9.  [final_score], on a line that does not contain
    [protocol_version]: always a success; the body is "0" when the score
    equals zero, "B+" or "W+" and the absolute score with one decimal
    otherwise, "W+" also for a score that is neither positive nor zero;
    the owner map goes to [stderr] and to the log. *)
Theorem final_score_answer (command : string) (p : Parsed) (g : GTPConnector W)
    (score : float) (owner_map : string) (w' : W) :
  ParseCommand command = Ok p ->
  p_type p = "final_score" ->
  contains command "protocol_version" = false ->
  tree_FinalScore (world (at_dispatch p g)) = (score, owner_map, w') ->
  exists body,
    ExecuteCommand command g
    = ((log_events g command ++ stop_events g
          ++ EvStderr owner_map
          :: (if tree_log_file (world (at_dispatch p g))
              then [EvLog owner_map] else [])
          ++ [EvStdout ("=" ++ id_text (p_id p) ++ " " ++ c_str body
                            ++ terminator (at_dispatch p g))])%list,
       Done true (set_world w' (at_dispatch p g)))
    /\ ((score =? 0)%float = true -> body = "0")
    /\ ((score =? 0)%float = false -> (0 <? score)%float = true ->
        body = "B+" ++ fixed1 (abs score))
    /\ ((score =? 0)%float = false -> (0 <? score)%float = false ->
        body = "W+" ++ fixed1 (abs score)).
Proof.
  intros Hp Ht Hc Hs.
  set (body := if (score =? 0)%float then "0"
               else (if (0 <? score)%float then "B+" else "W+")
                      ++ fixed1 (abs score)).
  assert (Hd : dispatch command (p_type p) (at_dispatch p g)
               = ((EvStderr owner_map
                     :: (if tree_log_file (world (at_dispatch p g))
                         then [EvLog owner_map] else []))%list,
                  Done body (set_world w' (at_dispatch p g)))).
  { rewrite Ht. chain_at Hc. rewrite PrintFinalResult_run, Hs. reflexivity. }
  exists body. split; [|unfold body; repeat split].
  - rewrite (ExecuteCommand_run _ _ _ _ _ _ _ _ (prologue_parsed _ _ _ Hp) Hd).
    rewrite Ht, response_text_eq. unfold marker, terminator.
    cbn [success_handle_ lizzie_interval_ set_world].
    destruct (at_dispatch_fields p g) as (_ & -> & _).
    rewrite <- !app_assoc. reflexivity.
  - now intros ->.
  - now intros -> ->.
  - now intros -> ->.
Qed.

Lemma contains_one_char (c : ascii) (a : string) :
  contains a (String c EmptyString) = char_in c a.
Proof.
  induction a as [|x a IH]; [reflexivity|].
  cbn [contains prefix char_in].
  destruct (ascii_dec c x) as [->|Hne].
  - rewrite Ascii.eqb_refl. now destruct a.
  - rewrite IH. destruct (Ascii.eqb_spec x c) as [->|_]; [contradiction|reflexivity].
Qed.

(** X10.  [time_left] with a colour and a time that converts, on a line
    that does not contain [protocol_version]: always a success with an
    empty body, and the need_time_control option is cleared; the clock of
    the search is set when the engine has no colour yet, or when the
    colour named is the engine's, and is left alone otherwise.  The
    colour named is black when the argument holds B or b, else white when
    it holds W or w, else none. *)
Theorem time_left_sets_own_clock (command a b : string) (rest : list string)
    (t : float) (p : Parsed) (g : GTPConnector W) :
  ParseCommand command = Ok p ->
  p_type p = "time_left" ->
  p_args p = a :: b :: rest ->
  stod b = Ok t ->
  contains command "protocol_version" = false ->
  exists w',
    ExecuteCommand command g
    = ((log_events g command ++ stop_events g
          ++ [EvStdout ("=" ++ id_text (p_id p) ++ " "
                            ++ terminator (at_dispatch p g))])%list,
       Done true (set_world (Options_clear_need_time_control w') (at_dispatch p g)))
    /\ (c_engine_ g = kEmpty ->
        w' = tree_set_left_time t (world (at_dispatch p g)))
    /\ (c_engine_ g = kBlack ->
        w' = if char_in "B" a || char_in "b" a
             then tree_set_left_time t (world (at_dispatch p g))
             else world (at_dispatch p g))
    /\ (c_engine_ g = kWhite ->
        w' = if char_in "B" a || char_in "b" a
             then world (at_dispatch p g)
             else if char_in "W" a || char_in "w" a
                  then tree_set_left_time t (world (at_dispatch p g))
                  else world (at_dispatch p g)).
Proof.
  intros Hp Ht Ha Hs Hc.
  set (g0 := at_dispatch p g).
  set (c := if FindString a "B" "b" EmptyString then kBlack
            else if FindString a "W" "w" EmptyString then kWhite else kEmpty).
  set (w' := if Color_eqb (c_engine_ g0) kEmpty || Color_eqb (c_engine_ g0) c
             then tree_set_left_time t (world g0) else world g0).
  assert (Hd : dispatch command (p_type p) g0
               = ([], Done EmptyString
                           (set_world (Options_clear_need_time_control w') g0))).
  { rewrite Ht. chain_at Hc.
    unfold arg, bind, get, try_, when, on_world, modify, ret.
    assert (Hargs : args_ g0 = a :: b :: rest)
      by (unfold g0; now rewrite args_at_dispatch).
    rewrite Hargs. cbn [nth_error app]. rewrite Hargs. cbn [nth_error app].
    rewrite Hs. cbn [app]. fold c. unfold w'.
    destruct (Color_eqb (c_engine_ g0) kEmpty || Color_eqb (c_engine_ g0) c);
      reflexivity. }
  assert (Hcol : c_engine_ g0 = c_engine_ g) by apply at_dispatch_fields.
  assert (Hfind : forall x y, FindString a (String x EmptyString)
                                (String y EmptyString) EmptyString
                              = char_in x a || char_in y a).
  { intros x y. unfold FindString.
    cbn [String.eqb negb andb orb]. now rewrite !contains_one_char, orb_false_r. }
  exists w'. split; [|split; [|split]].
  - rewrite (ExecuteCommand_run _ _ _ _ _ _ _ _ (prologue_parsed _ _ _ Hp) Hd).
    rewrite Ht, response_text_eq. unfold marker, terminator.
    cbn [success_handle_ lizzie_interval_ set_world]. unfold g0.
    destruct (at_dispatch_fields p g) as (_ & -> & _).
    rewrite <- !app_assoc. reflexivity.
  - intros E. unfold w'. now rewrite Hcol, E.
  - intros E. unfold w', c. rewrite Hcol, E, !Hfind.
    destruct (char_in "B" a || char_in "b" a); [reflexivity|].
    destruct (char_in "W" a || char_in "w" a); reflexivity.
  - intros E. unfold w', c. rewrite Hcol, E, !Hfind.
    destruct (char_in "B" a || char_in "b" a); [reflexivity|].
    destruct (char_in "W" a || char_in "w" a); reflexivity.
Qed.

(** X11.  [kgs-game_over], on a line that does not contain
    [protocol_version]: a success with an empty body that clears
    [go_ponder_] and changes nothing else; from then on no iteration of
    the loop ponders, whatever the board and the clock become, until a
    handler sets the flag again. *)
Theorem game_over_stops_pondering (command : string) (p : Parsed)
    (g : GTPConnector W) :
  ParseCommand command = Ok p ->
  p_type p = "kgs-game_over" ->
  contains command "protocol_version" = false ->
  ExecuteCommand command g
  = ((log_events g command ++ stop_events g
        ++ [EvStdout ("=" ++ id_text (p_id p) ++ " "
                          ++ terminator (at_dispatch p g))])%list,
     Done true (set_go_ponder false (at_dispatch p g)))
  /\ forall w, start_pondering (set_world w (set_go_ponder false (at_dispatch p g)))
               = false.
Proof.
  intros Hp Ht Hc. split.
  - assert (Hd : dispatch command (p_type p) (at_dispatch p g)
                 = ([], Done EmptyString (set_go_ponder false (at_dispatch p g)))).
    { rewrite Ht. chain_at Hc. reflexivity. }
    rewrite (ExecuteCommand_run _ _ _ _ _ _ _ _ (prologue_parsed _ _ _ Hp) Hd).
    rewrite Ht, response_text_eq. unfold marker, terminator.
    cbn [success_handle_ lizzie_interval_ set_go_ponder].
    destruct (at_dispatch_fields p g) as (_ & -> & _).
    rewrite <- !app_assoc. reflexivity.
  - intros w. unfold start_pondering. cbn [go_ponder_ set_world set_go_ponder world].
    now rewrite andb_false_r.
Qed.

(** X12.  A line the parser throws on: it is written to the log like any
    other, and the run ends there with the exception uncaught; nothing
    reaches [stdout], not even the line feed that ends a streamed
    analysis. *)
Theorem ExecuteCommand_parse_failure (command : string) (e : exception)
    (g : GTPConnector W) :
  ParseCommand command = Throw e ->
  ExecuteCommand command g = (log_events g command, Abort (Uncaught e))
  /\ filter is_stdout (trace (ExecuteCommand command g)) = [].
Proof.
  intros Hp. rewrite (ExecuteCommand_parse_throw _ _ _ Hp).
  split; [reflexivity|]. unfold trace, log_events. cbn [fst].
  destruct (tree_log_file (world g)); reflexivity.
Qed.

Ltac run_branch Hd :=
  unfold StopLizzieAnalysis, arg, bind, get, try_, stod, when, on_world, modify,
    emit, abort, ret in Hd;
  cbn [world set_world set_lizzie args_ app] in Hd;
  rewrite ?PrintFinalResult_run in Hd;
  cbn [world set_world set_lizzie args_ app] in Hd;
  repeat match type of Hd with
         | context [match ?x with _ => _ end] =>
             match x with
             | context [match _ with _ => _ end] => fail 1
             | _ => destruct x eqn:?
             end
         end;
  try discriminate Hd;
  injection Hd as <- <- <-;
  repeat split; first [reflexivity | assumption].

(** The branches that gtp.h itself defines write nothing to [stdout] and
    leave the colour, the queue, the log flag and the arguments alone. *)
Lemma dispatch_frame (command type response : string) (g0 g' : GTPConnector W)
    (tr : list Event) :
  ~ In type handler_names ->
  dispatch command type g0 = (tr, Done response g') ->
  filter is_stdout tr = []
  /\ c_engine_ g' = c_engine_ g0
  /\ command_queue_ g' = command_queue_ g0
  /\ save_log_ g' = save_log_ g0
  /\ args_ g' = args_ g0.
Proof.
  intros Hn Hd. unfold dispatch in Hd.
  destruct (FindString command "protocol_version" EmptyString EmptyString);
    [run_branch Hd|].
  repeat match type of Hd with
         | context [String.eqb type ?s] =>
             destruct (String.eqb_spec type s) as [E|_];
             [first [ exfalso; apply Hn; rewrite E; unfold handler_names;
                      cbn [In]; tauto
                    | cbn [orb] in Hd; run_branch Hd ] |]
         end.
  cbn [orb] in Hd. run_branch Hd.
Qed.

(** X13.  Unless the name is one of those handed to a handler of another
    file, a run that returns has written to [stdout] the line feed that
    ends a streamed analysis, if one was on, and one response, and
    nothing else; and it leaves the engine's colour, the queue and the
    log flag as they were, and [args_] holding the parsed arguments. *)
Theorem own_branches_frame (command : string) (p : Parsed)
    (g g' : GTPConnector W) (events : list Event) (running : bool) :
  ParseCommand command = Ok p ->
  ~ In (p_type p) handler_names ->
  ExecuteCommand command g = (events, Done running g') ->
  (exists text, filter is_stdout events = (stop_events g ++ [EvStdout text])%list)
  /\ c_engine_ g' = c_engine_ g
  /\ command_queue_ g' = command_queue_ g
  /\ save_log_ g' = save_log_ g
  /\ args_ g' = p_args p.
Proof.
  intros Hp Hn Hrun.
  pose proof (prologue_parsed command p g Hp) as Hpro.
  rewrite ExecuteCommand_unfold, Hpro in Hrun.
  destruct (dispatch command (p_type p) (at_dispatch p g))
    as [tr [response g1|f]] eqn:Hd.
  - rewrite (answer_run _ _ _ _ _ _ Hd) in Hrun. cbv beta iota zeta in Hrun.
    injection Hrun as <- _ <-.
    destruct (dispatch_frame _ _ _ _ _ _ Hn Hd) as (Hout & Hc & Hq & Hl & Ha).
    destruct (at_dispatch_fields p g) as (Ha0 & _ & Hc0 & _ & Hq0 & Hl0).
    split; [|repeat split; congruence].
    eexists. rewrite !filter_app, Hout. unfold log_events, stop_events.
    destruct (tree_log_file (world g)); destruct (0 <? lizzie_interval_ g);
      reflexivity.
  - rewrite (answer_abort _ _ _ _ _ Hd) in Hrun. cbv beta iota zeta in Hrun.
    discriminate Hrun.
Qed.

End MoreDispatcher.

Lemma boardsize_reads_leading_number_witness :
  ParseCommand "boardsize 19x19 now"
  = Ok {| p_type := "boardsize"; p_id := -1; p_args := ["19x19"; "now"] |}
  /\ ExecuteCommand "boardsize 19x19 now" (Demo.fresh Demo.idle [])
     = ([EvStdout ("= " ++ LF ++ LF)],
        Done true (set_args ["19x19"; "now"] (Demo.fresh Demo.idle []))).
Proof.
  split; [reflexivity|].
  refine (boardsize_reads_leading_number (W := Demo.World)
            "boardsize 19x19 now" "x19" ["now"]
            {| p_type := "boardsize"; p_id := -1; p_args := ["19x19"; "now"] |}
            (Demo.fresh Demo.idle []) eq_refl eq_refl eq_refl _ eq_refl eq_refl).
  cbn. unfold INT_MAX. lia.
Defined.

(** A line named [quit] that holds [protocol_version] is answered by the
    first branch, and ends the loop all the same. *)
Lemma ExecuteCommand_return_value_witness :
  ExecuteCommand "quit protocol_version" (Demo.fresh Demo.idle [])
  = ([EvStdout ("= 2" ++ LF ++ LF)],
     Done false (set_args ["protocol_version"] (Demo.fresh Demo.idle [])))
  /\ exists p,
      ParseCommand "quit protocol_version" = Ok p
      /\ false = negb (String.eqb (p_type p) "quit").
Proof.
  split; [reflexivity|].
  exact (ExecuteCommand_return_value (W := Demo.World) "quit protocol_version"
           (Demo.fresh Demo.idle [])
           (set_args ["protocol_version"] (Demo.fresh Demo.idle []))
           [EvStdout ("= 2" ++ LF ++ LF)] false eq_refl).
Defined.

(** [quit] arriving while a streamed analysis is on. *)
Lemma quit_answer_witness :
  ParseCommand "5 quit" = Ok {| p_type := "quit"; p_id := 5; p_args := [] |}
  /\ ExecuteCommand "5 quit" Demo.streaming
     = ([EvStdout LF; EvStderr EmptyString; EvStdout ("=5 " ++ LF ++ LF)],
        Done false (mkGTP (Demo.stop Demo.idle) kEmpty [] true false [] true (-1))).
Proof.
  split; [reflexivity|].
  exact (quit_answer (W := Demo.World) "5 quit"
           {| p_type := "quit"; p_id := 5; p_args := [] |} Demo.streaming
           0%float EmptyString (Demo.stop Demo.idle)
           eq_refl eq_refl eq_refl eq_refl).
Defined.

Lemma final_score_answer_witness :
  ParseCommand "final_score" = Ok {| p_type := "final_score"; p_id := -1; p_args := [] |}
  /\ exists body,
      ExecuteCommand "final_score" (Demo.fresh Demo.idle [])
      = ([EvStderr EmptyString; EvStdout ("= " ++ c_str body ++ LF ++ LF)],
         Done true (Demo.fresh Demo.idle []))
      /\ ((0 =? 0)%float = true -> body = "0")
      /\ ((0 =? 0)%float = false -> (0 <? 0)%float = true ->
          body = "B+" ++ fixed1 (abs 0))
      /\ ((0 =? 0)%float = false -> (0 <? 0)%float = false ->
          body = "W+" ++ fixed1 (abs 0)).
Proof.
  split; [reflexivity|].
  exact (final_score_answer (W := Demo.World) "final_score"
           {| p_type := "final_score"; p_id := -1; p_args := [] |}
           (Demo.fresh Demo.idle []) 0%float EmptyString Demo.idle
           eq_refl eq_refl eq_refl eq_refl).
Defined.

(** The engine plays white: the clock of black is not taken. *)
Lemma time_left_sets_own_clock_witness :
  ParseCommand "time_left b 100"
  = Ok {| p_type := "time_left"; p_id := -1; p_args := ["b"; "100"] |}
  /\ stod "100" = Ok 0%float
  /\ ExecuteCommand "time_left b 100" (Demo.pondering Demo.in_game [])
     = ([EvStdout ("= " ++ LF ++ LF)],
        Done true (set_args ["b"; "100"] (Demo.pondering Demo.in_game [])))
  /\ ExecuteCommand "time_left w 100" (Demo.pondering Demo.in_game [])
     = ([EvStdout ("= " ++ LF ++ LF)],
        Done true (set_world (Demo.with_left_time 0 Demo.in_game)
                     (set_args ["w"; "100"] (Demo.pondering Demo.in_game [])))).
Proof.
  split; [reflexivity|]. split; [reflexivity|]. split.
  - destruct (time_left_sets_own_clock (W := Demo.World) (H := Demo.engine) "time_left b 100"
                "b" "100" [] 0%float
                {| p_type := "time_left"; p_id := -1; p_args := ["b"; "100"] |}
                (Demo.pondering Demo.in_game [])
                eq_refl eq_refl eq_refl eq_refl eq_refl)
      as (w' & Hrun & _ & _ & Hw).
    rewrite Hrun, (Hw eq_refl). reflexivity.
  - destruct (time_left_sets_own_clock (W := Demo.World) (H := Demo.engine) "time_left w 100"
                "w" "100" [] 0%float
                {| p_type := "time_left"; p_id := -1; p_args := ["w"; "100"] |}
                (Demo.pondering Demo.in_game [])
                eq_refl eq_refl eq_refl eq_refl eq_refl)
      as (w' & Hrun & _ & _ & Hw).
    rewrite Hrun, (Hw eq_refl). reflexivity.
Defined.

Lemma game_over_stops_pondering_witness :
  start_pondering (Demo.pondering Demo.in_game []) = true
  /\ ExecuteCommand "kgs-game_over" (Demo.pondering Demo.in_game [])
     = ([EvStdout ("= " ++ LF ++ LF)],
        Done true (set_go_ponder false (Demo.pondering Demo.in_game [])))
  /\ forall w,
      start_pondering
        (set_world w (set_go_ponder false (Demo.pondering Demo.in_game [])))
      = false.
Proof.
  split; [reflexivity|].
  exact (game_over_stops_pondering (W := Demo.World) "kgs-game_over"
           {| p_type := "kgs-game_over"; p_id := -1; p_args := [] |}
           (Demo.pondering Demo.in_game []) eq_refl eq_refl eq_refl).
Defined.

Lemma ExecuteCommand_parse_failure_witness :
  ParseCommand "4294967296 name" = Throw out_of_range
  /\ ExecuteCommand "4294967296 name" Demo.streaming
     = ([], Abort (Uncaught out_of_range))
  /\ filter is_stdout (trace (ExecuteCommand "4294967296 name" Demo.streaming)) = [].
Proof.
  split; [reflexivity|].
  exact (ExecuteCommand_parse_failure (W := Demo.World) "4294967296 name"
           out_of_range Demo.streaming eq_refl).
Defined.

Lemma own_branches_frame_witness :
  ExecuteCommand "komi 6.5" Demo.streaming
  = ([EvStdout LF; EvStderr ("set komi=0.0." ++ LF); EvStdout ("= " ++ LF ++ LF)],
     Done true (mkGTP (Demo.stop Demo.idle) kEmpty [] true false ["6.5"] true (-1)))
  /\ ((exists text,
          filter is_stdout
            [EvStdout LF; EvStderr ("set komi=0.0." ++ LF); EvStdout ("= " ++ LF ++ LF)]
          = (stop_events Demo.streaming ++ [EvStdout text])%list)
      /\ kEmpty = c_engine_ Demo.streaming
      /\ [] = command_queue_ Demo.streaming
      /\ false = save_log_ Demo.streaming
      /\ ["6.5"] = ["6.5"]).
Proof.
  split; [reflexivity|].
  refine (own_branches_frame (W := Demo.World) "komi 6.5"
            {| p_type := "komi"; p_id := -1; p_args := ["6.5"] |}
            Demo.streaming _ _ true eq_refl _ eq_refl).
  unfold handler_names. cbn [In p_type]. intuition discriminate.
Defined.

(* ================================================================== *)
(** * Further properties: the evaluator and the loop                  *)
(* ================================================================== *)

Section MoreLoop.

Context {W : Type} `{Collaborators W}.

(** X14.  [AllocateGPU] acquires the evaluator at most once: with an
    evaluator it does nothing at all, and, [SetGPUAndMemory] leaving one,
    a second call after a first adds nothing.  It never writes to
    [stdout]. *)
Theorem AllocateGPU_once (g : GTPConnector W) :
  (forall w, tree_has_eval_worker (tree_SetGPUAndMemory w) = true) ->
  (tree_has_eval_worker (world g) = true -> AllocateGPU g = ([], Done tt g))
  /\ (AllocateGPU ;; AllocateGPU) g = AllocateGPU g
  /\ filter is_stdout (trace (AllocateGPU g)) = [].
Proof.
  intros Hset.
  assert (Hnop : forall g0 : GTPConnector W,
             tree_has_eval_worker (world g0) = true ->
             AllocateGPU g0 = ([], Done tt g0)).
  { intros g0 Hw. unfold AllocateGPU, bind, get, ret. now rewrite Hw. }
  split; [apply Hnop|].
  destruct (tree_has_eval_worker (world g)) eqn:Hw.
  - unfold bind. rewrite (Hnop g Hw), (Hnop g Hw). split; reflexivity.
  - assert (Hrun : AllocateGPU g
                   = ((EvStderr ("allocating memory..." ++ LF)
                         :: (if negb (save_log_ g)
                                && negb (Options_use_ponder (world g))
                             then [EvSleep 5000] else []))%list,
                      Done tt (set_world (tree_SetGPUAndMemory (world g)) g))).
    { unfold AllocateGPU, bind, get, when, emit, on_world, modify, ret.
      rewrite Hw. cbn [negb].
      destruct (negb (save_log_ g) && negb (Options_use_ponder (world g)));
        reflexivity. }
    split.
    + unfold bind at 1. rewrite Hrun.
      rewrite (Hnop (set_world (tree_SetGPUAndMemory (world g)) g)
                 (Hset (world g))).
      now rewrite app_nil_r.
    + rewrite Hrun. unfold trace. cbn [fst filter is_stdout].
      destruct (negb (save_log_ g) && negb (Options_use_ponder (world g)));
        reflexivity.
Qed.

(** X15.  Called from the loop, [AllocateGPU] never sleeps: the loop
    calls it only when it ponders, and it sleeps only when pondering is
    off. *)
Theorem AllocateGPU_from_loop (g : GTPConnector W) :
  start_pondering g = true ->
  AllocateGPU g
  = if tree_has_eval_worker (world g) then ([], Done tt g)
    else ([EvStderr ("allocating memory..." ++ LF)],
          Done tt (set_world (tree_SetGPUAndMemory (world g)) g)).
Proof.
  unfold start_pondering. intros Hsp.
  apply andb_prop in Hsp as [Hsp _]. apply andb_prop in Hsp as [Hsp _].
  apply andb_prop in Hsp as [Hup _].
  unfold AllocateGPU, bind, get, when, emit, on_world, modify, ret.
  rewrite Hup, andb_false_r.
  destruct (tree_has_eval_worker (world g)); reflexivity.
Qed.

(** X16.  The loop does not wait for a line: an iteration that finds the
    queue empty reads the front of an empty deque, and the run ends
    there, with nothing written to [stdout]. *)
Theorem Start_iteration_empty_queue (g : GTPConnector W) :
  command_queue_ g = [] ->
  outcome (Start_iteration g) = Abort FrontOfEmpty
  /\ filter is_stdout (trace (Start_iteration g)) = []
  /\ forall n, outcome (Start (S n) g) = Abort FrontOfEmpty.
Proof.
  intros Hq.
  assert (Hrun : Start_iteration g = (fst (ponder g), Abort FrontOfEmpty)).
  { rewrite Start_iteration_unfold.
    destruct (ponder_quiet g) as (_ & _ & Hg).
    destruct (ponder g) as [tr g2]. cbn [fst snd] in *.
    rewrite Hg. cbn [command_queue_ set_world]. now rewrite Hq. }
  split; [now rewrite Hrun|]. split.
  - rewrite Hrun. apply ponder_quiet.
  - intros n. cbn [Start]. unfold bind. now rewrite Hrun.
Qed.

(** X17.  An iteration that does not ponder dispatches the line at the
    head of the queue, after [PrepareToThink], with the rest of the queue
    left for the next iteration; nothing else happens. *)
Theorem Start_iteration_idle (g : GTPConnector W) (command : string)
    (rest : list string) :
  start_pondering g = false ->
  command_queue_ g = command :: rest ->
  command <> EmptyString ->
  command <> LF ->
  Start_iteration g
  = ExecuteCommand command
      (set_world (tree_PrepareToThink (world g)) (set_queue rest g)).
Proof.
  intros Hsp Hq Hne Hnl. rewrite Start_iteration_unfold. unfold ponder.
  rewrite Hsp, Hq. cbv zeta.
  destruct (String.eqb_spec command EmptyString) as [E|_]; [contradiction|].
  destruct (String.eqb_spec command LF) as [E|_]; [contradiction|].
  cbn [negb andb orb app set_world world].
  destruct (ExecuteCommand command _) as [tr o]. reflexivity.
Qed.

(** X18.  An iteration that ponders: a line that is not empty is
    dispatched only after the search has been told to stop and 10 ms
    have passed; an empty line read while pondering is dropped without
    the search being told to stop. *)
Theorem Start_iteration_stops_search (g : GTPConnector W) (command : string)
    (rest : list string) :
  start_pondering g = true ->
  command_queue_ g = command :: rest ->
  exists pre g1,
    AllocateGPU g = (pre, Done tt g1)
    /\ let searched :=
         tree_Search (time_limit (world g1)) true (lizzie_interval_ g) (world g1) in
       let search := EvSearch (time_limit (world g1)) true (lizzie_interval_ g) in
       (command = EmptyString ->
        Start_iteration g
        = ((pre ++ [search])%list,
           Done true (set_world (tree_PrepareToThink searched) (set_queue rest g))))
       /\ (command <> EmptyString -> command <> LF ->
           let g5 := set_world (tree_PrepareToThink (tree_StopToThink searched))
                       (set_queue rest g) in
           Start_iteration g
           = ((pre ++ [search; EvSleep 10]
                 ++ trace (ExecuteCommand command g5))%list,
              outcome (ExecuteCommand command g5))).
Proof.
  intros Hsp Hq.
  destruct (AllocateGPU_run g) as (pre & g1 & Ha & _ & _ & _ & Hg).
  exists pre, g1. split; [exact Ha|]. cbv zeta.
  assert (Hi : lizzie_interval_ g1 = lizzie_interval_ g) by (rewrite Hg; reflexivity).
  assert (Hq1 : command_queue_ g1 = command :: rest) by (rewrite Hg; exact Hq).
  assert (Hset : forall w q, set_world w (set_queue q g1) = set_world w (set_queue q g)).
  { intros w q. rewrite Hg. reflexivity. }
  split.
  - intros ->. rewrite Start_iteration_unfold. unfold ponder.
    rewrite Hsp, Ha, Hi. cbn [command_queue_ set_world]. rewrite Hq1. cbv zeta.
    cbn [String.eqb negb andb orb app world set_world set_queue].
    rewrite app_nil_r. f_equal. f_equal. rewrite <- Hset. reflexivity.
  - intros Hne Hnl. rewrite Start_iteration_unfold. unfold ponder.
    rewrite Hsp, Ha, Hi. cbn [command_queue_ set_world]. rewrite Hq1. cbv zeta.
    destruct (String.eqb_spec command EmptyString) as [E|_]; [contradiction|].
    destruct (String.eqb_spec command LF) as [E|_]; [contradiction|].
    cbn [negb andb orb app world set_world set_queue].
    match goal with
    | |- context [ExecuteCommand command ?s] =>
        replace s with (set_world
                          (tree_PrepareToThink
                             (tree_StopToThink
                                (tree_Search (time_limit (world g1)) true
                                   (lizzie_interval_ g) (world g1))))
                          (set_queue rest g))
          by (rewrite <- Hset; reflexivity)
    end.
    destruct (ExecuteCommand command _) as [tr o].
    unfold trace, outcome. cbn [fst snd]. rewrite <- !app_assoc. reflexivity.
Qed.

(** X19.  Empty lines are used up one an iteration and the loop goes on:
    with [k] of them at the head of the queue, [k] iterations send no
    response ([SendGTPCommand] is not called) and write no line to the
    log, and the lines that were queued behind them are left for the next
    iteration.  A search started in one of these iterations is an event of
    the trace; what it prints itself is not the loop's and is not listed.
    The queue is the one the consumer sees when the iterations start. *)
Theorem Start_skips_empty_lines (k : nat) (g : GTPConnector W) (q : list string) :
  command_queue_ g = (repeat EmptyString k ++ q)%list ->
  exists tr g',
    Start k g = (tr, Done None g')
    /\ filter is_stdout tr = []
    /\ filter is_log tr = []
    /\ command_queue_ g' = q.
Proof.
  revert g; induction k as [|k IH]; intros g Hq.
  - exists [], g. repeat split. exact Hq.
  - cbn [repeat app] in Hq. cbn [Start]. unfold bind at 1.
    rewrite Start_iteration_unfold.
    destruct (ponder_quiet g) as (Ho & Hl & Hg).
    destruct (ponder g) as [tr g2]. cbn [fst snd] in Ho, Hl, Hg.
    assert (Hq2 : command_queue_ g2 = EmptyString :: (repeat EmptyString k ++ q)%list)
      by (rewrite Hg; exact Hq).
    rewrite Hq2. cbv zeta. cbn [String.eqb negb andb orb app].
    match goal with
    | |- context [Start k ?s] =>
        destruct (IH s) as (tr' & g' & Hrun & Ho' & Hl' & Hq');
        [reflexivity | rewrite Hrun]
    end.
    exists ((tr ++ []) ++ tr')%list, g'.
    rewrite !filter_app, Ho, Hl, Ho', Hl'. repeat split. exact Hq'.
Qed.

(** X20.  [quit] ends the loop: the iteration that reads a line named
    [quit] (and not containing [protocol_version]) is the last one,
    however many more are allowed; its response is a success with an
    empty body and a blank line; the lines queued after it are never
    read. *)
Theorem Start_ends_on_quit (n : nat) (g : GTPConnector W) (line : string)
    (q : list string) (p : Parsed) :
  command_queue_ g = line :: q ->
  ParseCommand line = Ok p ->
  p_type p = "quit" ->
  contains line "protocol_version" = false ->
  exists pre g',
    Start (S n) g
    = ((pre ++ [EvStdout ("=" ++ id_text (p_id p) ++ " " ++ LF ++ LF)])%list,
       Done (Some tt) g')
    /\ command_queue_ g' = q.
Proof.
  intros Hq Hp Ht Hc. cbn [Start]. unfold bind at 1. rewrite Start_iteration_unfold.
  destruct (ponder_quiet g) as (_ & _ & Hg).
  destruct (ponder g) as [tr g2]. cbn [fst snd] in Hg.
  assert (Hq2 : command_queue_ g2 = line :: q) by (rewrite Hg; exact Hq).
  rewrite Hq2. cbv zeta.
  destruct (String.eqb_spec line EmptyString) as [E|_].
  { subst line. vm_compute in Hp. injection Hp as <-. discriminate Ht. }
  destruct (String.eqb_spec line LF) as [E|_].
  { subst line. vm_compute in Hp. injection Hp as <-. discriminate Ht. }
  cbn [negb andb orb].
  match goal with
  | |- context [ExecuteCommand line ?s] => set (g5 := s)
  end.
  destruct (tree_FinalScore (tree_StopToThink (world (at_dispatch p g5))))
    as [[score owner_map] w'] eqn:Hs.
  pose proof (dispatch_quit line (at_dispatch p g5) score owner_map w' Hc Hs)
    as Hd.
  rewrite <- Ht in Hd at 1.
  rewrite (ExecuteCommand_run _ _ _ _ _ _ _ _ (prologue_parsed _ _ _ Hp) Hd).
  rewrite Ht, response_text_eq. unfold marker, terminator.
  cbn [success_handle_ lizzie_interval_ set_world set_lizzie].
  destruct (at_dispatch_fields p g5) as (_ & Hflag & _). rewrite Hflag.
  cbv iota beta. unfold ret. cbn [String.eqb Ascii.eqb Bool.eqb negb].
  exists ((tr ++ (if start_pondering g then [EvSleep 10] else []))
            ++ log_events g5 line ++ stop_events g5
            ++ EvStderr owner_map
            :: (if tree_log_file (tree_StopToThink (world (at_dispatch p g5)))
                then [EvLog owner_map] else []))%list.
  eexists. split.
  - rewrite app_nil_r, <- !app_assoc, <- ?app_comm_cons. reflexivity.
  - cbn [command_queue_ set_world set_lizzie].
    destruct (at_dispatch_fields p g5) as (_ & _ & _ & _ & -> & _).
    unfold g5. destruct (start_pondering g); reflexivity.
Qed.

End MoreLoop.

Lemma AllocateGPU_once_witness :
  (forall w, tree_has_eval_worker (tree_SetGPUAndMemory w) = true)
  /\ (AllocateGPU ;; AllocateGPU) (Demo.fresh Demo.idle [])
     = ([EvStderr ("allocating memory..." ++ LF); EvSleep 5000],
        Done tt (Demo.fresh (Demo.with_eval_worker Demo.idle) []))
  /\ AllocateGPU (Demo.fresh Demo.idle [])
     = ([EvStderr ("allocating memory..." ++ LF); EvSleep 5000],
        Done tt (Demo.fresh (Demo.with_eval_worker Demo.idle) [])).
Proof.
  split; [reflexivity|]. split; [|reflexivity].
  exact (proj1 (proj2 (AllocateGPU_once (W := Demo.World) (H := Demo.engine)
                         (Demo.fresh Demo.idle []) (fun w => eq_refl)))).
Defined.

Lemma AllocateGPU_from_loop_witness :
  start_pondering (Demo.pondering cold_game []) = true
  /\ AllocateGPU (Demo.pondering cold_game [])
     = ([EvStderr ("allocating memory..." ++ LF)],
        Done tt (Demo.pondering (Demo.with_eval_worker cold_game) [])).
Proof.
  split; [reflexivity|].
  exact (AllocateGPU_from_loop (W := Demo.World) (Demo.pondering cold_game [])
           eq_refl).
Defined.

Lemma Start_iteration_empty_queue_witness :
  command_queue_ (Demo.fresh Demo.idle []) = []
  /\ outcome (Start_iteration (Demo.fresh Demo.idle [])) = Abort FrontOfEmpty
  /\ filter is_stdout (trace (Start_iteration (Demo.fresh Demo.idle []))) = []
  /\ forall n, outcome (Start (S n) (Demo.fresh Demo.idle [])) = Abort FrontOfEmpty.
Proof.
  split; [reflexivity|].
  exact (Start_iteration_empty_queue (W := Demo.World) (Demo.fresh Demo.idle [])
           eq_refl).
Defined.

Lemma Start_iteration_idle_witness :
  start_pondering (Demo.fresh Demo.idle ["name"; "quit"]) = false
  /\ Start_iteration (Demo.fresh Demo.idle ["name"; "quit"])
     = ExecuteCommand "name" (Demo.fresh Demo.idle ["quit"])
  /\ ExecuteCommand "name" (Demo.fresh Demo.idle ["quit"])
     = ([EvStdout ("= AQ" ++ LF ++ LF)], Done true (Demo.fresh Demo.idle ["quit"])).
Proof.
  split; [reflexivity|]. split; [|reflexivity].
  refine (Start_iteration_idle (W := Demo.World) (H := Demo.engine)
            (Demo.fresh Demo.idle ["name"; "quit"]) "name" ["quit"]
            eq_refl eq_refl _ _); discriminate.
Defined.

Lemma Start_iteration_stops_search_witness :
  start_pondering (Demo.pondering Demo.in_game ["name"]) = true
  /\ exists pre g1,
      AllocateGPU (Demo.pondering Demo.in_game ["name"]) = (pre, Done tt g1)
      /\ Start_iteration (Demo.pondering Demo.in_game ["name"])
         = ((pre ++ [EvSearch 60%float true (-1); EvSleep 10;
                     EvStdout ("= AQ" ++ LF ++ LF)])%list,
            Done true (Demo.pondering Demo.in_game [])).
Proof.
  split; [reflexivity|].
  destruct (Start_iteration_stops_search (W := Demo.World) (H := Demo.engine)
              (Demo.pondering Demo.in_game ["name"]) "name" [] eq_refl eq_refl)
    as (pre & g1 & Ha & _ & Hrun).
  exists pre, g1. split; [exact Ha|].
  rewrite Hrun by discriminate.
  vm_compute in Ha. injection Ha as <- <-. reflexivity.
Defined.

Lemma Start_skips_empty_lines_witness :
  command_queue_ (Demo.fresh Demo.idle [EmptyString; EmptyString; "name"])
  = (repeat EmptyString 2 ++ ["name"])%list
  /\ exists tr g',
      Start 2 (Demo.fresh Demo.idle [EmptyString; EmptyString; "name"])
      = (tr, Done None g')
      /\ filter is_stdout tr = []
      /\ filter is_log tr = []
      /\ command_queue_ g' = ["name"].
Proof.
  split; [reflexivity|].
  exact (Start_skips_empty_lines (W := Demo.World) (H := Demo.engine) 2
           (Demo.fresh Demo.idle [EmptyString; EmptyString; "name"]) ["name"]
           eq_refl).
Defined.

Lemma Start_ends_on_quit_witness :
  ParseCommand "9 quit" = Ok {| p_type := "quit"; p_id := 9; p_args := [] |}
  /\ exists pre g',
      Start 5 (Demo.fresh Demo.idle ["9 quit"; "name"])
      = ((pre ++ [EvStdout ("=9 " ++ LF ++ LF)])%list, Done (Some tt) g')
      /\ command_queue_ g' = ["name"].
Proof.
  split; [reflexivity|].
  exact (Start_ends_on_quit (W := Demo.World) (H := Demo.engine) 4
           (Demo.fresh Demo.idle ["9 quit"; "name"]) "9 quit" ["name"]
           {| p_type := "quit"; p_id := 9; p_args := [] |}
           eq_refl eq_refl eq_refl eq_refl).
Defined.
